(** * NMR spectrum analysis: smoothing filters, natural cubic spline,
      quadrature and peak detection

    A shallow embedding of Filter.cpp, CubicSpline.cpp, Integration.cpp,
    PeakDetector.cpp and the in-memory part of DataReader.cpp, followed by
    the properties of the specification that are settled against it and by
    further properties of the code.

    Modelling conventions.
    - [double] is modelled by the exact rationals [Q]: every arithmetic
      operation is the exact one, comparisons are the numeric ones, and there
      is no NaN, no infinity and no rounding.  Properties that hinge on IEEE
      rounding are outside this development.
    - [int] is modelled by [Z] and [size_t] by [nat]; the modelled functions
      keep their [int] expressions far from overflow as long as a vector has
      fewer than 2^30 elements.
    - [vector<double>] is [list Q]; an in-range read [v[i]] is [nth i v 0].
    - [static_cast<int>] of a rounded [double] is the rounded value itself;
      that is what the program stores only inside the range of [int], and
      the property that reads such a value carries the range as a
      hypothesis.
    - Text written to [cerr] is kept, as the list of lines, by the small
      writer monad [Cerr]; progress text written to [cout] is dropped.

    The further properties are stated through comparisons, sizes and the
    steps that the program's own arithmetic takes exactly (a difference
    [x - x], a product by 0), not through identities that hold of exact
    numbers only. *)

From Stdlib Require Import String.
From Stdlib Require Import List ZArith QArith Qreduction Qround Qabs Lia Lqa Bool Arith.
From Stdlib Require Import DecimalString Sorted Permutation.
Import ListNotations.

Open Scope Q_scope.

(* ------------------------------------------------------------------ *)
(** ** Numbers *)

(** The C++ type [double]. *)
Definition double : Type := Q.

Module Num.

(** [a < b], [a <= b], [a > b], [a >= b] on doubles. *)
Definition ltb (a b : double) : bool := negb (Qle_bool b a).
Definition leb (a b : double) : bool := Qle_bool a b.
Definition gtb (a b : double) : bool := ltb b a.
Definition geb (a b : double) : bool := leb b a.

(** Conversion of an [int] to [double]. *)
Definition of_int (z : Z) : double := inject_Z z.

(** [std::abs] / [fabs]. *)
Definition fabs (a : double) : double := Qabs a.

(** [std::round]: nearest integer, halfway cases away from zero. *)
Definition round (a : double) : Z :=
  if Qle_bool 0 a then Qfloor (a + (1 # 2)) else (- Qfloor (- a + (1 # 2)))%Z.

(** [std::pow] with a small non-negative integer exponent. *)
Definition pow (a : double) (k : nat) : double := Qpower a (Z.of_nat k).

(** [os << n] for an [int]: the decimal digits, after a minus sign for a
    negative number. *)
Definition to_string (z : Z) : string := NilZero.string_of_int (Z.to_int z).

End Num.

Infix "<?" := Num.ltb : Q_scope.
Infix "<=?" := Num.leb : Q_scope.
Infix ">?" := Num.gtb : Q_scope.
Infix ">=?" := Num.geb : Q_scope.

(* ------------------------------------------------------------------ *)
(** ** Vectors and loops *)

Module Vec.

(** [v[i]] for an index held in a [size_t]. *)
Definition at_ (v : list double) (i : nat) : double := nth i v 0.

(** [v[i]] for an index held in an [int]. *)
Definition at_int (v : list double) (i : Z) : double := nth (Z.to_nat i) v 0.

(** [v[i] = a]; the source never writes out of range. *)
Fixpoint set (v : list double) (i : nat) (a : double) : list double :=
  match v, i with
  | [], _ => []
  | _ :: t, O => a :: t
  | h :: t, S i' => h :: set t i' a
  end.

(** [v.resize(n)]: truncate, or pad with zeros. *)
Definition resize (v : list double) (n : nat) : list double :=
  firstn n v ++ repeat 0 (n - length v).

Definition empty {A : Type} (v : list A) : bool :=
  match v with [] => true | _ => false end.

(** Element-wise [==] of two vectors of the same size. *)
Fixpoint eqb (v w : list double) : bool :=
  match v, w with
  | [], [] => true
  | a :: v', b :: w' => Qeq_bool a b && eqb v' w'
  | _, _ => false
  end.

(** The values of [for (int j = lo; j <= hi; j++)]. *)
Definition range (lo hi : Z) : list Z :=
  map (fun k => (lo + Z.of_nat k)%Z) (seq 0 (Z.to_nat (hi - lo + 1))).

(** The values of [for (int i = lo; i < n; i += 2)]. *)
Definition range2 (lo n : Z) : list Z :=
  map (fun k => (lo + 2 * Z.of_nat k)%Z) (seq 0 (Z.to_nat ((n - lo + 1) / 2))).

End Vec.

(* ------------------------------------------------------------------ *)
(** ** Error output *)

(** A computation that returns a value and the lines it wrote to [cerr]. *)
Definition Cerr (A : Type) : Type := (A * list string)%type.

Definition ret {A : Type} (a : A) : Cerr A := (a, []).

Definition bind {A B : Type} (m : Cerr A) (f : A -> Cerr B) : Cerr B :=
  let (a, l1) := m in let (b, l2) := f a in (b, l1 ++ l2).

Definition cerr (line : string) : Cerr unit := (tt, [line]).

Definition value {A : Type} (m : Cerr A) : A := fst m.
Definition errors {A : Type} (m : Cerr A) : list string := snd m.

Notation "x <- m ;; k" := (bind m (fun x => k))
  (at level 61, m at next level, right associativity).
Notation "m ;;; k" := (bind m (fun _ => k))
  (at level 61, right associativity).

(* ------------------------------------------------------------------ *)
(** ** Filter.cpp *)

Module Filter.

(** The index arithmetic shared by both passes: mirror at the start, mirror
    at the end, then clamp. [n] is [static_cast<int>(data.size())]. *)
Definition reflect (n idx : Z) : Z :=
  let idx := if (idx <? 0)%Z then (- idx)%Z else idx in
  let idx := if (idx >=? n)%Z then (2 * n - idx - 2)%Z else idx in
  let idx := if (idx <? 0)%Z then 0%Z else idx in
  let idx := if (idx >=? n)%Z then (n - 1)%Z else idx in
  idx.

Definition boxcarPass (data : list double) (filterSize : Z) : list double :=
  if (filterSize <=? 0)%Z || Vec.empty data then data
  else
    let n := length data in
    let halfWidth := ((filterSize - 1) ÷ 2)%Z in
    map (fun i : nat =>
           let sum :=
             fold_left
               (fun sum j =>
                  let idx := reflect (Z.of_nat n) (Z.of_nat i + j) in
                  sum + Vec.at_int data idx)
               (Vec.range (- halfWidth) halfWidth) 0 in
           sum / Num.of_int filterSize)
        (seq 0 n).

Definition applyBoxcar (data : list double) (filterSize numPasses : Z)
  : list double :=
  fold_left (fun result _ => boxcarPass result filterSize)
            (Vec.range 0 (numPasses - 1)) data.

(** The Savitzky-Golay tables: coefficients and normalisation. *)
Definition sgCoeffs (filterSize : Z) : list double :=
  if (filterSize =? 5)%Z then [-3; 12; 17; 12; -3]
  else if (filterSize =? 11)%Z then
    [-36; 9; 44; 69; 84; 89; 84; 69; 44; 9; -36]
  else
    [-21; -6; 7; 18; 27; 34; 39; 42; 43; 42; 39; 34; 27; 18; 7; -6; -21].

Definition sgNorm (filterSize : Z) : double :=
  if (filterSize =? 5)%Z then 35
  else if (filterSize =? 11)%Z then 429
  else 323.

(** The part of [sgPass] after the size has been settled. *)
Definition sgConvolve (data : list double) (filterSize : Z) : list double :=
  if Vec.empty data then data
  else
    let n := length data in
    let coeffs := sgCoeffs filterSize in
    let norm := sgNorm filterSize in
    let halfWidth := ((filterSize - 1) ÷ 2)%Z in
    map (fun i : nat =>
           let sum :=
             fold_left
               (fun sum j =>
                  let idx := reflect (Z.of_nat n) (Z.of_nat i + j) in
                  let coeffIdx := (j + halfWidth)%Z in
                  sum + Vec.at_int coeffs coeffIdx * Vec.at_int data idx)
               (Vec.range (- halfWidth) halfWidth) 0 in
           sum / norm)
        (seq 0 n).

Definition sgPass (data : list double) (filterSize : Z) : Cerr (list double) :=
  filterSize <-
    (if negb (filterSize =? 5)%Z && negb (filterSize =? 11)%Z
        && negb (filterSize =? 17)%Z
     then cerr "Warning: SG filter size should be 5, 11, or 17. Using 5." ;;;
          ret 5%Z
     else ret filterSize) ;;
  ret (sgConvolve data filterSize).

Definition applySavitzkyGolay (data : list double) (filterSize numPasses : Z)
  : Cerr (list double) :=
  fold_left (fun result _ => r <- result ;; sgPass r filterSize)
            (Vec.range 0 (numPasses - 1)) (ret data).

End Filter.

(* ------------------------------------------------------------------ *)
(** ** CubicSpline.cpp *)

(** Dense matrices ([arma::mat]) as lists of rows. *)
Module Mat.

Definition mat : Type := list (list double).

Definition zeros (rows cols : nat) : mat := repeat (repeat 0 cols) rows.

(** [A(i, j) = a]. *)
Fixpoint set (A : mat) (i j : nat) (a : double) : mat :=
  match A, i with
  | [], _ => []
  | row :: t, O => Vec.set row j a :: t
  | row :: t, S i' => row :: set t i' j a
  end.

End Mat.

Module CubicSpline.

(** The object's members. *)
Record t : Type := mk {
  x : list double;
  y : list double;
  b : list double;
  c : list double;
  d : list double;
  computed : bool
}.

(** [CubicSpline::CubicSpline()]. *)
Definition init : t := mk [] [] [] [] [] false.

Definition isComputed (s : t) : bool := computed s.

(** The loop that fills [h], leaving at the first [h[i] <= 0]. *)
Definition widths (xs : list double) (n : nat) : option (list double) :=
  fold_left
    (fun acc i =>
       match acc with
       | None => None
       | Some h =>
           let hi := Vec.at_ xs (i + 1) - Vec.at_ xs i in
           if hi <=? 0 then None else Some (h ++ [hi])
       end)
    (seq 0 (n - 1)) (Some []).

(** Rows of the tridiagonal system, as the source assigns them. *)
Definition system (h ys : list double) (m : nat) : Mat.mat * list double :=
  let A := Mat.zeros m m in
  let rhs := repeat 0 m in
  let A := Mat.set A 0 0 (2 * (Vec.at_ h 0 + Vec.at_ h 1)) in
  let A := if (1 <? m)%nat then Mat.set A 0 1 (Vec.at_ h 1) else A in
  let rhs :=
    Vec.set rhs 0
      (6 * ((Vec.at_ ys 2 - Vec.at_ ys 1) / Vec.at_ h 1
            - (Vec.at_ ys 1 - Vec.at_ ys 0) / Vec.at_ h 0)) in
  let '(A, rhs) :=
    fold_left
      (fun '(A, rhs) i =>
         let A := Mat.set A i (i - 1) (Vec.at_ h i) in
         let A := Mat.set A i i (2 * (Vec.at_ h i + Vec.at_ h (i + 1))) in
         let A := Mat.set A i (i + 1) (Vec.at_ h (i + 1)) in
         let rhs :=
           Vec.set rhs i
             (6 * ((Vec.at_ ys (i + 2) - Vec.at_ ys (i + 1)) / Vec.at_ h (i + 1)
                   - (Vec.at_ ys (i + 1) - Vec.at_ ys i) / Vec.at_ h i)) in
         (A, rhs))
      (seq 1 (m - 1 - 1)) (A, rhs) in
  if (1 <? m)%nat then
    let A := Mat.set A (m - 1) (m - 2) (Vec.at_ h (m - 1)) in
    let A := Mat.set A (m - 1) (m - 1) (2 * (Vec.at_ h (m - 1) + Vec.at_ h m)) in
    let rhs :=
      Vec.set rhs (m - 1)
        (6 * ((Vec.at_ ys (m + 1) - Vec.at_ ys m) / Vec.at_ h m
              - (Vec.at_ ys m - Vec.at_ ys (m - 1)) / Vec.at_ h (m - 1))) in
    (A, rhs)
  else (A, rhs).

(** The full vector of second derivatives, natural boundary values included. *)
Definition fullM (M_interior : list double) (n m : nat) : list double :=
  let M := repeat 0 n in
  let M := Vec.set M 0 0 in
  let M := fold_left (fun M i => Vec.set M (i + 1) (Vec.at_ M_interior i))
                     (seq 0 m) M in
  Vec.set M (n - 1) 0.

(** The coefficient loop and the copy into the last slot. *)
Definition coefficients (s : t) (h M : list double) (n : nat) : t :=
  let s :=
    fold_left
      (fun s i =>
         let d' := Vec.set (d s) i
                     ((Vec.at_ M (i + 1) - Vec.at_ M i) / (6 * Vec.at_ h i)) in
         let c' := Vec.set (c s) i (Vec.at_ M i / 2) in
         let b' := Vec.set (b s) i
                     ((Vec.at_ (y s) (i + 1) - Vec.at_ (y s) i) / Vec.at_ h i
                      - Vec.at_ h i * (2 * Vec.at_ M i + Vec.at_ M (i + 1)) / 6) in
         mk (x s) (y s) b' c' d' (computed s))
      (seq 0 (n - 1)) s in
  let b' := Vec.set (b s) (n - 1) (Vec.at_ (b s) (n - 2)) in
  let c' := Vec.set (c s) (n - 1) (Vec.at_ (c s) (n - 2)) in
  let d' := Vec.set (d s) (n - 1) (Vec.at_ (d s) (n - 2)) in
  mk (x s) (y s) b' c' d' (computed s).

Definition setComputed (s : t) : t := mk (x s) (y s) (b s) (c s) (d s) true.

Section Compute.

(** [arma::solve(A, rhs)] belongs to the Armadillo library; [compute] is
    modelled for any solver. *)
Variable solve : Mat.mat -> list double -> list double.

(** [compute] returns its [bool] and the object's members after the call. *)
Definition compute (s : t) (xData yData : list double) : Cerr (bool * t) :=
  if negb (length xData =? length yData)%nat || (length xData <? 2)%nat then
    cerr "Error: Invalid data for spline computation" ;;;
    ret (false, s)
  else
    let n := length xData in
    let s := mk xData yData (Vec.resize (b s) n) (Vec.resize (c s) n)
                (Vec.resize (d s) n) (computed s) in
    if (n =? 2)%nat then
      let b0 := (Vec.at_ (y s) 1 - Vec.at_ (y s) 0)
                / (Vec.at_ (x s) 1 - Vec.at_ (x s) 0) in
      let b' := Vec.set (b s) 0 b0 in
      let c' := Vec.set (c s) 0 0 in
      let d' := Vec.set (d s) 0 0 in
      let b' := Vec.set b' 1 (Vec.at_ b' 0) in
      let c' := Vec.set c' 1 0 in
      let d' := Vec.set d' 1 0 in
      ret (true, mk (x s) (y s) b' c' d' true)
    else
      match widths (x s) n with
      | None =>
          cerr "Error: x values must be strictly increasing" ;;;
          ret (false, s)
      | Some h =>
          let m := (n - 2)%nat in
          if (m =? 0)%nat then ret (true, setComputed s)
          else
            let '(A, rhs) := system h (y s) m in
            let M_interior := solve A rhs in
            let M := fullM M_interior n m in
            ret (true, setComputed (coefficients s h M n))
      end.

End Compute.

(** The binary search of [evaluate]: [fuel] bounds the iterations of the
    [while] loop, and [right - left] of them always suffice. *)
Fixpoint locate (fuel : nat) (xs : list double) (xVal : double)
         (left right : nat) : nat :=
  match fuel with
  | O => left
  | S fuel' =>
      if (1 <? right - left)%nat then
        let mid := ((left + right) / 2)%nat in
        if xVal <? Vec.at_ xs mid then locate fuel' xs xVal left mid
        else locate fuel' xs xVal mid right
      else left
  end.

(** The interval index that [evaluate] and [evaluateDerivative] use. *)
Definition interval (s : t) (xVal : double) : nat :=
  let n := length (x s) in
  if xVal <=? Vec.at_ (x s) 0 then 0%nat
  else if xVal >=? Vec.at_ (x s) (n - 1) then (n - 2)%nat
  else locate (n - 1) (x s) xVal 0 (n - 1).

Definition evaluate (s : t) (xVal : double) : double :=
  if negb (computed s) || Vec.empty (x s) then 0
  else
    let i := interval s xVal in
    let dx := xVal - Vec.at_ (x s) i in
    Vec.at_ (y s) i + Vec.at_ (b s) i * dx + Vec.at_ (c s) i * dx * dx
    + Vec.at_ (d s) i * dx * dx * dx.

Definition evaluateDerivative (s : t) (xVal : double) : double :=
  if negb (computed s) || Vec.empty (x s) then 0
  else
    let i := interval s xVal in
    let dx := xVal - Vec.at_ (x s) i in
    Vec.at_ (b s) i + 2 * Vec.at_ (c s) i * dx + 3 * Vec.at_ (d s) i * dx * dx.

(** The bisection loop of [findCrossings]; [k] is the number of iterations
    left, [50 - iter].  Every run pushes exactly one value: the midpoint at
    which it converged, or after the fiftieth update the midpoint of the
    last bracket. *)
Fixpoint bisect (k : nat) (s : t) (yVal xLeft xRight fLeft fRight : double)
  : double :=
  match k with
  | O => (xLeft + xRight) / 2
  | S k' =>
      let xMid := (xLeft + xRight) / 2 in
      let fMid := evaluate s xMid - yVal in
      if (Num.fabs fMid <? 1e-8) || (Num.fabs (xRight - xLeft) <? 1e-10)
      then xMid
      else if fLeft * fMid <? 0
           then bisect k' s yVal xLeft xMid fLeft fMid
           else bisect k' s yVal xMid xRight fMid fRight
  end.

Definition numSamples : Z := 1000.

Definition findCrossings (s : t) (yVal xMin xMax : double) : list double :=
  if negb (computed s) || Vec.empty (x s) then []
  else
    let dx := (xMax - xMin) / Num.of_int numSamples in
    let prevVal := evaluate s xMin - yVal in
    let prevX := xMin in
    let '(crossings, _, _) :=
      fold_left
        (fun '(crossings, prevVal, prevX) i =>
           let xSample := xMin + Num.of_int i * dx in
           let currVal := evaluate s xSample - yVal in
           let crossings :=
             if prevVal * currVal <? 0
             then crossings ++ [bisect 50 s yVal prevX xSample prevVal currVal]
             else crossings in
           (crossings, currVal, xSample))
        (Vec.range 1 numSamples) ([], prevVal, prevX) in
    crossings.

End CubicSpline.

(* ------------------------------------------------------------------ *)
(** ** Integration.cpp *)

Module Integration.

Definition notComputed : string := "Error: Spline not computed".

(** Helper: trapezoidal rule with [n] intervals. *)
Definition trapezoid (s : CubicSpline.t) (a b : double) (n : Z) : double :=
  let h := (b - a) / Num.of_int n in
  let sum := 0.5 * (CubicSpline.evaluate s a + CubicSpline.evaluate s b) in
  let sum :=
    fold_left (fun sum i => sum + CubicSpline.evaluate s (a + Num.of_int i * h))
              (Vec.range 1 (n - 1)) sum in
  h * sum.

(** One composite Simpson estimate with [n] intervals. *)
Definition simpson (s : CubicSpline.t) (a b : double) (n : Z) : double :=
  let h := (b - a) / Num.of_int n in
  let sum := CubicSpline.evaluate s a + CubicSpline.evaluate s b in
  let sum :=
    fold_left
      (fun sum i => sum + 4 * CubicSpline.evaluate s (a + Num.of_int i * h))
      (Vec.range2 1 n) sum in
  let sum :=
    fold_left
      (fun sum i => sum + 2 * CubicSpline.evaluate s (a + Num.of_int i * h))
      (Vec.range2 2 n) sum in
  (h / 3) * sum.

(** The doubling loop of [newtonCotes]; [k] iterations are left and [iter]
    is the loop counter. *)
Fixpoint newtonCotesLoop (k : nat) (s : CubicSpline.t) (a b tolerance : double)
         (iter n : Z) (prevIntegral integral : double) : double :=
  match k with
  | O => integral
  | S k' =>
      let integral := simpson s a b n in
      if (iter >? 0)%Z && (Num.fabs (integral - prevIntegral) <? tolerance)
      then integral
      else newtonCotesLoop k' s a b tolerance (iter + 1) (n * 2) integral integral
  end.

Definition maxIterations : nat := 20.

Definition newtonCotes (s : CubicSpline.t) (a b tolerance : double)
  : Cerr double :=
  if negb (CubicSpline.isComputed s) then cerr notComputed ;;; ret 0
  else ret (newtonCotesLoop maxIterations s a b tolerance 0 2 0 0).

(** The table [R] of [romberg], read and written by index. *)
Definition table : Type := nat -> nat -> double.

Definition setR (R : table) (i j : nat) (a : double) : table :=
  fun i' j' => if (i' =? i)%nat && (j' =? j)%nat then a else R i' j'.

Definition maxLevel : nat := 15.

(** The loop over the levels; [k] levels are left and [i] is the level. *)
Fixpoint rombergLoop (k : nat) (s : CubicSpline.t) (a b tolerance : double)
         (i : nat) (R : table) : double :=
  match k with
  | O => R (maxLevel - 1)%nat (maxLevel - 1)%nat
  | S k' =>
      let n := (2 ^ Z.of_nat i)%Z in
      let R := setR R i 0 (trapezoid s a b n) in
      let R :=
        fold_left
          (fun R j =>
             let factor := Num.pow 4 j in
             setR R i j
                  ((factor * R i (j - 1)%nat - R (i - 1)%nat (j - 1)%nat)
                   / (factor - 1)))
          (seq 1 i) R in
      if (0 <? i)%nat
         && (Num.fabs (R i i - R (i - 1)%nat (i - 1)%nat) <? tolerance)
      then R i i
      else rombergLoop k' s a b tolerance (S i) R
  end.

Definition romberg (s : CubicSpline.t) (a b tolerance : double) : Cerr double :=
  if negb (CubicSpline.isComputed s) then cerr notComputed ;;; ret 0
  else ret (rombergLoop maxLevel s a b tolerance 0 (fun _ _ => 0)).

(** Helper: adaptive recursion using Simpson's rule.  The source recursion
    has no bound of its own; [fuel] is the depth the model may use, and
    [None] says that this depth was not enough. *)
Fixpoint adaptiveHelper (fuel : nat) (s : CubicSpline.t)
         (a b tolerance fa fb fmid : double) : option double :=
  match fuel with
  | O => None
  | S fuel' =>
      let mid := (a + b) / 2 in
      let h := b - a in
      let S_whole := (h / 6) * (fa + 4 * fmid + fb) in
      let leftMid := (a + mid) / 2 in
      let f_leftMid := CubicSpline.evaluate s leftMid in
      let S_left := (h / 12) * (fa + 4 * f_leftMid + fmid) in
      let rightMid := (mid + b) / 2 in
      let f_rightMid := CubicSpline.evaluate s rightMid in
      let S_right := (h / 12) * (fmid + 4 * f_rightMid + fb) in
      let S_split := S_left + S_right in
      let error := Num.fabs (S_split - S_whole) / 15 in
      if error <? tolerance then Some (S_split + (S_split - S_whole) / 15)
      else
        match adaptiveHelper fuel' s a mid (tolerance / 2) fa fmid f_leftMid with
        | None => None
        | Some left_integral =>
            match adaptiveHelper fuel' s mid b (tolerance / 2)
                                 fmid fb f_rightMid with
            | None => None
            | Some right_integral => Some (left_integral + right_integral)
            end
        end
  end.

Definition adaptive (fuel : nat) (s : CubicSpline.t) (a b tolerance : double)
  : Cerr (option double) :=
  if negb (CubicSpline.isComputed s) then cerr notComputed ;;; ret (Some 0)
  else
    let fa := CubicSpline.evaluate s a in
    let fb := CubicSpline.evaluate s b in
    let fmid := CubicSpline.evaluate s ((a + b) / 2) in
    ret (adaptiveHelper fuel s a b tolerance fa fb fmid).

(** The 32 positive abscissas of 64-point Gauss-Legendre quadrature. *)
Definition nodes : list double := [
  0.0243502926634244325089558; 0.0729931217877990394495429;
  0.1214628192961205544703765; 0.1696444204239928180373136;
  0.2174236437400070841496487; 0.2646871622087674163739642;
  0.3113228719902109561575127; 0.3572201583376681159504426;
  0.4022701579639916036957668; 0.4463660172534640879849477;
  0.4894031457070529574785263; 0.5312794640198945456580139;
  0.5718956462026340342838781; 0.6111553551723932502488530;
  0.6489654712546573398577612; 0.6852363130542332425635584;
  0.7198818501716108268489402; 0.7528199072605318966118638;
  0.7839723589433414076102205; 0.8132653151227975597419233;
  0.8406292962525803627516915; 0.8659993981540928197607834;
  0.8893154459951141058534040; 0.9105221370785028057563807;
  0.9295691721319395758214902; 0.9464113748584028160624815;
  0.9610087996520537189186141; 0.9733268277899109637418535;
  0.9833362538846259569312993; 0.9910133714767443207393824;
  0.9963401167719552793469245; 0.9993050417357721394569056 ].

(** The matching weights. *)
Definition weights : list double := [
  0.0486909570091397203833654; 0.0485754674415034269347991;
  0.0483447622348029571697695; 0.0479993885964583077281262;
  0.0475401657148303086622822; 0.0469681828162100173253263;
  0.0462847965813144172959532; 0.0454916279274181444797710;
  0.0445905581637565630601347; 0.0435837245293234533768279;
  0.0424735151236535890073398; 0.0412625632426235286101563;
  0.0399537411327203413866569; 0.0385501531786156291289625;
  0.0370551285402400460404151; 0.0354722132568823838106931;
  0.0338051618371416093915655; 0.0320579283548515535854675;
  0.0302346570724024788679741; 0.0283396726142594832275113;
  0.0263774697150546586716918; 0.0243527025687108733381776;
  0.0222701738083832541592983; 0.0201348231535302093723403;
  0.0179517157756973430850453; 0.0157260304760247193219660;
  0.0134630478967186425980608; 0.0111681394601311288185905;
  0.0088467598263639477230309; 0.0065044579689783628561174;
  0.0041470332605624676352875; 0.0017832807216964329472961 ].

Definition gaussLegendre (s : CubicSpline.t) (a b : double) : Cerr double :=
  if negb (CubicSpline.isComputed s) then cerr notComputed ;;; ret 0
  else
    let n := 32%nat in
    let midpoint := (a + b) / 2 in
    let halfwidth := (b - a) / 2 in
    let sum :=
      fold_left
        (fun sum i =>
           let x_pos := midpoint + halfwidth * Vec.at_ nodes i in
           let x_neg := midpoint - halfwidth * Vec.at_ nodes i in
           sum + Vec.at_ weights i
                 * (CubicSpline.evaluate s x_pos + CubicSpline.evaluate s x_neg))
        (seq 0 n) 0 in
    ret (halfwidth * sum).

End Integration.

(* ------------------------------------------------------------------ *)
(** ** PeakDetector.cpp *)

Module PeakDetector.

(** [struct Peak]; the member [end] is spelt [end_]. *)
Record Peak : Type := mkPeak {
  begin : double;
  end_ : double;
  location : double;
  maximum : double;
  area : double;
  hydrogens : Z
}.

(** [*min_element(v.begin(), v.end())] and [*max_element(...)] of a
    non-empty vector. *)
Definition min_element (v : list double) : double :=
  match v with
  | [] => 0
  | first :: rest =>
      fold_left (fun smallest a => if a <? smallest then a else smallest)
                rest first
  end.

Definition max_element (v : list double) : double :=
  match v with
  | [] => 0
  | first :: rest =>
      fold_left (fun largest a => if largest <? a then a else largest)
                rest first
  end.

(** [sort(v.begin(), v.end())]: the ascending arrangement. *)
Fixpoint insert (a : double) (v : list double) : list double :=
  match v with
  | [] => [a]
  | h :: t => if a <=? h then a :: v else h :: insert a t
  end.

Definition sort (v : list double) : list double :=
  fold_right insert [] v.

(** The crossing list after the two edge rules. *)
Definition edgeCrossings (s : CubicSpline.t) (baseline xMin xMax : double)
  : list double :=
  let crossings := CubicSpline.findCrossings s baseline xMin xMax in
  let yAtMin := CubicSpline.evaluate s xMin in
  let crossings :=
    if (yAtMin >? baseline) && negb (Vec.empty crossings)
    then xMin :: crossings else crossings in
  let yAtMax := CubicSpline.evaluate s xMax in
  let crossings :=
    if (yAtMax >? baseline) && negb (Vec.empty crossings)
    then crossings ++ [xMax] else crossings in
  crossings.

(** The scan of the data points of one pair: [(maxY, maxX, foundDataPoint)]. *)
Definition scanData (xData yData : list double)
           (baseline xBegin xEnd xMid : double) : double * double * bool :=
  fold_left
    (fun '(maxY, maxX, foundDataPoint) j =>
       if (Vec.at_ xData j >=? xBegin) && (Vec.at_ xData j <=? xEnd) then
         if Vec.at_ yData j >? maxY
         then (Vec.at_ yData j, Vec.at_ xData j, true)
         else (maxY, maxX, foundDataPoint)
       else (maxY, maxX, foundDataPoint))
    (seq 0 (length xData)) (baseline, xMid, false).

(** One turn of the loop over the pairs: the peak pushed, if any. *)
Definition pairPeak (s : CubicSpline.t) (xData yData : list double)
           (baseline xBegin xEnd : double) : option Peak :=
  let xMid := (xBegin + xEnd) / 2 in
  let yMid := CubicSpline.evaluate s xMid in
  if yMid <=? baseline then None
  else
    let '(maxY, maxX, foundDataPoint) :=
      scanData xData yData baseline xBegin xEnd xMid in
    if negb foundDataPoint then None
    else
      let peak := mkPeak xBegin xEnd ((xBegin + xEnd) / 2) maxY 0 0 in
      if Num.fabs (location peak) <? 0.02 then None
      else Some peak.

(** The loop over the consecutive pairs of the sorted crossings. *)
Definition pairLoop (s : CubicSpline.t) (xData yData : list double)
           (baseline : double) (crossings : list double) : list Peak :=
  fold_left
    (fun peaks i =>
       let xBegin := Vec.at_ crossings i in
       let xEnd := Vec.at_ crossings (i + 1) in
       match pairPeak s xData yData baseline xBegin xEnd with
       | Some peak => peaks ++ [peak]
       | None => peaks
       end)
    (seq 0 (length crossings - 1)) [].

Definition detectPeaks (s : CubicSpline.t) (xData yData : list double)
           (baseline : double) : Cerr (list Peak) :=
  if negb (CubicSpline.isComputed s) || Vec.empty xData || Vec.empty yData then
    cerr "Error: Invalid data for peak detection" ;;; ret []
  else if negb (length xData =? length yData)%nat then
    cerr "Error: xData and yData size mismatch" ;;; ret []
  else
    let xMin := min_element xData in
    let xMax := max_element xData in
    let crossings := edgeCrossings s baseline xMin xMax in
    if (length crossings <? 2)%nat then ret []
    else
      let crossings := sort crossings in
      ret (pairLoop s xData yData baseline crossings).

Definition setArea (peak : Peak) (a : double) : Peak :=
  mkPeak (begin peak) (end_ peak) (location peak) (maximum peak) a
         (hydrogens peak).

(** [integratePeaks]; [fuel] is the depth given to the adaptive recursion,
    and [None] says that it was not enough for some peak. *)
Definition integratePeaks (fuel : nat) (peaks : list Peak) (s : CubicSpline.t)
           (integrationType : Z) (tolerance : double)
  : Cerr (option (list Peak)) :=
  fold_left
    (fun acc peak =>
       done <- acc ;;
       a <- (if (integrationType =? 0)%Z then
               v <- Integration.newtonCotes s (begin peak) (end_ peak) tolerance ;;
               ret (Some v)
             else if (integrationType =? 1)%Z then
               v <- Integration.romberg s (begin peak) (end_ peak) tolerance ;;
               ret (Some v)
             else if (integrationType =? 2)%Z then
               Integration.adaptive fuel s (begin peak) (end_ peak) tolerance
             else if (integrationType =? 3)%Z then
               v <- Integration.gaussLegendre s (begin peak) (end_ peak) ;;
               ret (Some v)
             else
               cerr (String.append "Unknown integration type: "
                                   (Num.to_string integrationType)) ;;;
               ret (Some 0)) ;;
       ret (match done, a with
            | Some ps, Some v => Some (ps ++ [setArea peak v])
            | _, _ => None
            end))
    peaks (ret (Some [])).

Definition setHydrogens (peak : Peak) (h : Z) : Peak :=
  mkPeak (begin peak) (end_ peak) (location peak) (maximum peak) (area peak) h.

(** The divisor [calculateHydrogens] settles on, for a non-empty list. *)
Definition minArea (peaks : list Peak) : double :=
  match peaks with
  | [] => 0
  | first :: _ =>
      fold_left
        (fun minArea peak =>
           if (area peak >? 0) && (area peak <? minArea) then area peak
           else minArea)
        peaks (area first)
  end.

(** [calculateHydrogens] updates the list in place; the model returns it. *)
Definition calculateHydrogens (peaks : list Peak) : list Peak :=
  if Vec.empty peaks then peaks
  else
    let minArea := minArea peaks in
    map (fun peak => setHydrogens peak (Num.round (area peak / minArea)))
        peaks.

End PeakDetector.

(* ------------------------------------------------------------------ *)
(** ** DataReader.cpp *)

Module DataReader.

(** The two public members of the class. *)
Record t : Type := mk { xData : list double; yData : list double }.

(** [isSorted]: no x value is below the one before it. *)
Definition isSorted (r : t) : bool :=
  forallb (fun i => negb (Vec.at_ (xData r) i <? Vec.at_ (xData r) (i - 1)))
          (seq 1 (length (xData r) - 1)).

Section SortData.

(** [std::sort] on the index vector, given the comparison.  The standard
    leaves the order of equal keys open, so the routine stays a parameter
    of [sortData]. *)
Variable sort : (nat -> nat -> bool) -> list nat -> list nat.

(** The index vector after the call of [std::sort]. *)
Definition sortedIndices (r : t) : list nat :=
  let indices := seq 0 (length (xData r)) in
  sort (fun i1 i2 => Vec.at_ (xData r) i1 <? Vec.at_ (xData r) i2) indices.

(** [sortData]; the two lines it writes go to [cout] and are left out. *)
Definition sortData (r : t) : t :=
  if negb (length (xData r) =? length (yData r))%nat || Vec.empty (xData r)
  then r
  else if isSorted r then r
  else
    let indices := sortedIndices r in
    let sortedX := map (fun k => Vec.at_ (xData r) k) indices in
    let sortedY := map (fun k => Vec.at_ (yData r) k) indices in
    mk sortedX sortedY.

End SortData.

(** One turn of the search loop of [findAndShiftTMS]; the state is
    [(tmsLocation, maxY)]. *)
Definition tmsStep (r : t) (baselineAdjustment : double)
           (state : double * double) (i : nat) : double * double :=
  let '(tmsLocation, maxY) := state in
  if Vec.at_ (yData r) i >? baselineAdjustment then
    let isLocalMax := true in
    let isLocalMax :=
      if (0 <? i)%nat && (Vec.at_ (yData r) i <? Vec.at_ (yData r) (i - 1))
      then false else isLocalMax in
    let isLocalMax :=
      if (i <? length (xData r) - 1)%nat
         && (Vec.at_ (yData r) i <? Vec.at_ (yData r) (i + 1))
      then false else isLocalMax in
    if isLocalMax && ((Vec.at_ (xData r) i >? tmsLocation)
                      || (Vec.at_ (yData r) i >? maxY))
    then
      if Vec.at_ (xData r) i >=? tmsLocation
      then (Vec.at_ (xData r) i, Vec.at_ (yData r) i)
      else (tmsLocation, maxY)
    else (tmsLocation, maxY)
  else (tmsLocation, maxY).

(** [findAndShiftTMS]: the shift returned and the object after the call. *)
Definition findAndShiftTMS (r : t) (baselineAdjustment : double)
  : Cerr (double * t) :=
  if Vec.empty (xData r) then
    cerr "Error: No data to process for TMS shift" ;;; ret (0, r)
  else
    let '(tmsLocation, maxY) :=
      fold_left (tmsStep r baselineAdjustment) (seq 0 (length (xData r)))
                (Vec.at_ (xData r) 0, Vec.at_ (yData r) 0) in
    let shift := tmsLocation in
    ret (shift, mk (map (fun x => x - shift) (xData r)) (yData r)).

End DataReader.

(* ------------------------------------------------------------------ *)
(** ** An exact solver, to run [compute] on concrete data *)

Module Exact.

(** Tridiagonal elimination (forward sweep, back substitution) on the three
    diagonals of [A], the solution given in lowest terms.  The system that
    [compute] builds is tridiagonal and strictly diagonally dominant, so it
    has exactly one solution, which is what any solver returns in exact
    arithmetic. *)
Definition solve (A : Mat.mat) (rhs : list double) : list double :=
  let m := length rhs in
  let entry := fun i j : nat => Vec.at_ (nth i A []) j in
  let sweep :=
    fold_left
      (fun acc i =>
         let '(cp, dp) := match acc with [] => (0, 0) | cd :: _ => cd end in
         let lower := if (i =? 0)%nat then 0 else entry i (i - 1)%nat in
         let denom := entry i i - lower * cp in
         (entry i (i + 1)%nat / denom, (Vec.at_ rhs i - lower * dp) / denom)
           :: acc)
      (seq 0 m) [] in
  map Qred
      (fold_left
         (fun xs '(cp, dp) =>
            match xs with
            | [] => [dp]
            | xnext :: _ => (dp - cp * xnext) :: xs
            end)
         sweep []).

Definition fit (xData yData : list double) : CubicSpline.t :=
  snd (value (CubicSpline.compute solve CubicSpline.init xData yData)).

End Exact.

(* ------------------------------------------------------------------ *)
(** ** Vocabulary of the properties *)

(** What a caller can read of a peak besides [hydrogens]. *)
Definition otherFields (p : PeakDetector.Peak)
  : double * double * double * double * double :=
  (PeakDetector.begin p, PeakDetector.end_ p, PeakDetector.location p,
   PeakDetector.maximum p, PeakDetector.area p).

(** The sorted crossing list whose consecutive pairs [detectPeaks] walks. *)
Definition crossingsOf (s : CubicSpline.t) (xData : list double)
           (baseline : double) : list double :=
  PeakDetector.sort
    (PeakDetector.edgeCrossings s baseline (PeakDetector.min_element xData)
                                (PeakDetector.max_element xData)).

(** The data points of a pair: the [(x, y)] with [x] in [[xBegin, xEnd]]. *)
Definition inRange (xData yData : list double) (xBegin xEnd : double)
  : list (double * double) :=
  filter (fun xy => (fst xy >=? xBegin) && (fst xy <=? xEnd))
         (combine xData yData).

(** One step of the scan, on a data point given as a pair. *)
Definition scanStep (xBegin xEnd : double) (acc : double * double * bool)
           (xy : double * double) : double * double * bool :=
  let '(maxY, maxX, foundDataPoint) := acc in
  if (fst xy >=? xBegin) && (fst xy <=? xEnd) then
    if snd xy >? maxY then (snd xy, fst xy, true)
    else (maxY, maxX, foundDataPoint)
  else (maxY, maxX, foundDataPoint).

(** Strictly increasing knots. *)
Definition increasing (xs : list double) : Prop :=
  forall i : nat, (i + 1 < length xs)%nat -> Vec.at_ xs i < Vec.at_ xs (i + 1).

(** One turn of the coefficient loop of [compute]. *)
Definition coefficientStep (h M : list double) (s : CubicSpline.t) (i : nat)
  : CubicSpline.t :=
  let d' := Vec.set (CubicSpline.d s) i
              ((Vec.at_ M (i + 1) - Vec.at_ M i) / (6 * Vec.at_ h i)) in
  let c' := Vec.set (CubicSpline.c s) i (Vec.at_ M i / 2) in
  let b' := Vec.set (CubicSpline.b s) i
              ((Vec.at_ (CubicSpline.y s) (i + 1) - Vec.at_ (CubicSpline.y s) i)
               / Vec.at_ h i
               - Vec.at_ h i * (2 * Vec.at_ M i + Vec.at_ M (i + 1)) / 6) in
  CubicSpline.mk (CubicSpline.x s) (CubicSpline.y s) b' c' d'
                 (CubicSpline.computed s).

(** One turn of the sampling loop of [findCrossings]. *)
Definition crossingStep (s : CubicSpline.t) (yVal xMin dx : double)
           (state : list double * double * double) (i : Z)
  : list double * double * double :=
  let '(crossings, prevVal, prevX) := state in
  let xSample := xMin + Num.of_int i * dx in
  let currVal := CubicSpline.evaluate s xSample - yVal in
  let crossings :=
    if prevVal * currVal <? 0
    then crossings ++ [CubicSpline.bisect 50 s yVal prevX xSample prevVal currVal]
    else crossings in
  (crossings, currVal, xSample).

(** Knots in ascending order, equal neighbours allowed. *)
Definition ascending (xs : list double) : Prop :=
  forall i : nat, (i + 1 < length xs)%nat -> Vec.at_ xs i <= Vec.at_ xs (i + 1).

(** The test of [findAndShiftTMS] for a sample to count as a peak: above
    the threshold and not below either neighbour. *)
Definition localMaxAbove (r : DataReader.t) (baselineAdjustment : double)
           (i : nat) : bool :=
  (Vec.at_ (DataReader.yData r) i >? baselineAdjustment)
  && negb ((0 <? i)%nat
           && (Vec.at_ (DataReader.yData r) i
               <? Vec.at_ (DataReader.yData r) (i - 1)))
  && negb ((i <? length (DataReader.xData r) - 1)%nat
           && (Vec.at_ (DataReader.yData r) i
               <? Vec.at_ (DataReader.yData r) (i + 1))).

(** The [switch] of [integratePeaks] for one peak: the area it assigns. *)
Definition areaBy (fuel : nat) (s : CubicSpline.t) (integrationType : Z)
           (tolerance : double) (peak : PeakDetector.Peak)
  : Cerr (option double) :=
  if (integrationType =? 0)%Z then
    v <- Integration.newtonCotes s (PeakDetector.begin peak)
                                 (PeakDetector.end_ peak) tolerance ;;
    ret (Some v)
  else if (integrationType =? 1)%Z then
    v <- Integration.romberg s (PeakDetector.begin peak)
                             (PeakDetector.end_ peak) tolerance ;;
    ret (Some v)
  else if (integrationType =? 2)%Z then
    Integration.adaptive fuel s (PeakDetector.begin peak)
                         (PeakDetector.end_ peak) tolerance
  else if (integrationType =? 3)%Z then
    v <- Integration.gaussLegendre s (PeakDetector.begin peak)
                                   (PeakDetector.end_ peak) ;;
    ret (Some v)
  else
    cerr (String.append "Unknown integration type: "
                        (Num.to_string integrationType)) ;;;
    ret (Some 0).

(** One turn of the loop of [integratePeaks]. *)
Definition integrateStep (fuel : nat) (s : CubicSpline.t) (integrationType : Z)
           (tolerance : double) (acc : Cerr (option (list PeakDetector.Peak)))
           (peak : PeakDetector.Peak)
  : Cerr (option (list PeakDetector.Peak)) :=
  done <- acc ;;
  a <- areaBy fuel s integrationType tolerance peak ;;
  ret (match done, a with
       | Some ps, Some v => Some (ps ++ [PeakDetector.setArea peak v])
       | _, _ => None
       end).

(** The quotients that [calculateHydrogens] can round and cast to [int]:
    those between the least and the greatest [int].  Outside of them the
    [static_cast<int>] is not defined, and the model's integer is not what
    the program stores. *)
Definition fitsInt (a : double) : Prop :=
  -2147483648 <= a /\ a <= 2147483647.

(* ------------------------------------------------------------------ *)
(** ** Test data *)

Module Data.

(** The straight line through (1, 0) and (2, 2). *)
Definition rampX : list double := [1; 2].
Definition rampY : list double := [0; 2].
Definition ramp : CubicSpline.t := Exact.fit rampX rampY.

(** The straight line through (0, 0) and (1, 1): a completed prior fit. *)
Definition line : CubicSpline.t := Exact.fit [0; 1] [0; 1].

(** A constant signal of height 5 on [0, 1]. *)
Definition flat : CubicSpline.t := Exact.fit [0; 1] [5; 5].

(** Four knots: the two inner ones sit on the level 0, the spline bulges
    above it in between and lies below it outside. *)
Definition bumpX : list double := [0; 999; 1001; 2000].
Definition bumpY : list double := [-1; 0; 0; -1].
Definition bump : CubicSpline.t := Exact.fit bumpX bumpY.
Definition bumpCrossings : list double := crossingsOf bump bumpX 0.

(** Peaks that differ in their areas only. *)
Definition peakOfArea (a : double) : PeakDetector.Peak :=
  PeakDetector.mkPeak 1 2 1.5 3 a 0.

End Data.

(* ------------------------------------------------------------------ *)
(** * Properties *)

(** ** Numbers and lists *)

Lemma ltb_lt (a b : double) : (a <? b) = true <-> a < b.
Proof.
  unfold Num.ltb. rewrite negb_true_iff. split; intro H.
  - apply Qnot_le_lt. intro Hle. apply Qle_bool_iff in Hle. congruence.
  - destruct (Qle_bool b a) eqn:E; [|reflexivity].
    apply Qle_bool_iff in E. exfalso. apply (Qlt_not_le _ _ H E).
Qed.

Lemma ltb_ge (a b : double) : (a <? b) = false <-> b <= a.
Proof.
  unfold Num.ltb. rewrite negb_false_iff. apply Qle_bool_iff.
Qed.

Lemma gtb_lt (a b : double) : (a >? b) = true <-> b < a.
Proof. unfold Num.gtb. apply ltb_lt. Qed.

Lemma leb_le (a b : double) : (a <=? b) = true <-> a <= b.
Proof. unfold Num.leb. apply Qle_bool_iff. Qed.

Lemma plus_zero_left (q : double) : 0 + q = q.
Proof.
  destruct q as [n d]. unfold Qplus. simpl. now rewrite Z.mul_1_r.
Qed.

Lemma div_one (q : double) : q / Num.of_int 1 = q.
Proof.
  destruct q as [n d]. unfold Qdiv, Qmult. simpl.
  now rewrite Z.mul_1_r, Pos.mul_1_r.
Qed.

Lemma map_nth_seq (l : list double) :
  map (fun i => nth i l 0) (seq 0 (length l)) = l.
Proof.
  induction l as [|a l IH]; [reflexivity|].
  cbn [length seq map nth]. f_equal.
  rewrite <- seq_shift, map_map. exact IH.
Qed.

Lemma fold_left_fixed {A B : Type} (f : A -> B -> A) (l : list B) (a : A) :
  (forall x, f a x = a) -> fold_left f l a = a.
Proof.
  intro H. induction l as [|x l IH]; [reflexivity|].
  cbn [fold_left]. now rewrite H.
Qed.

(** ** Filters *)

Lemma reflect_inside (n i : Z) :
  (0 <= i < n)%Z -> Filter.reflect n i = i.
Proof.
  intro H. unfold Filter.reflect. cbv zeta.
  repeat first
    [ rewrite (proj2 (Z.ltb_ge i 0)) by lia
    | rewrite Z.geb_leb
    | rewrite (proj2 (Z.leb_gt n i)) by lia
    | progress cbv iota ].
  reflexivity.
Qed.

Lemma boxcarPass_nonpositive (data : list double) (filterSize : Z) :
  (filterSize <= 0)%Z -> Filter.boxcarPass data filterSize = data.
Proof.
  intro H. unfold Filter.boxcarPass.
  now rewrite (proj2 (Z.leb_le filterSize 0) H).
Qed.

Lemma boxcarPass_one (data : list double) : Filter.boxcarPass data 1 = data.
Proof.
  unfold Filter.boxcarPass.
  destruct data as [|a l] eqn:E; [reflexivity|]. rewrite <- E.
  replace (Vec.empty data) with false by (now subst).
  cbn [Z.leb Z.compare orb]. cbv zeta.
  transitivity (map (fun i => nth i data 0) (seq 0 (length data)));
    [|apply map_nth_seq].
  apply map_ext_in. intros i Hi. apply in_seq in Hi.
  change (Vec.range (- ((1 - 1) ÷ 2)) ((1 - 1) ÷ 2)) with [0%Z].
  cbn [fold_left]. rewrite Z.add_0_r, reflect_inside by lia.
  unfold Vec.at_int. rewrite Nat2Z.id, plus_zero_left. apply div_one.
Qed.

Lemma sgPass_fallback (data : list double) (filterSize : Z) :
  filterSize <> 5%Z -> filterSize <> 11%Z -> filterSize <> 17%Z ->
  Filter.sgPass data filterSize
  = (Filter.sgConvolve data 5,
     ["Warning: SG filter size should be 5, 11, or 17. Using 5."%string]).
Proof.
  intros H5 H11 H17. unfold Filter.sgPass.
  rewrite (proj2 (Z.eqb_neq _ _) H5), (proj2 (Z.eqb_neq _ _) H11),
    (proj2 (Z.eqb_neq _ _) H17).
  reflexivity.
Qed.

Lemma sgPass_empty (filterSize : Z) : value (Filter.sgPass [] filterSize) = [].
Proof.
  unfold Filter.sgPass.
  destruct (negb (filterSize =? 5)%Z && negb (filterSize =? 11)%Z
            && negb (filterSize =? 17)%Z); reflexivity.
Qed.

Lemma applySavitzkyGolay_empty (filterSize : Z) (l : list Z) (log : list string) :
  value (fold_left (fun result (_ : Z) => r <- result ;; Filter.sgPass r filterSize)
                   l (([] : list double), log)) = [].
Proof.
  revert log. induction l as [|p l IH]; intro log; [reflexivity|].
  cbn [fold_left].
  destruct (Filter.sgPass [] filterSize) as [v w] eqn:E.
  pose proof (sgPass_empty filterSize) as Hv. rewrite E in Hv. cbn in Hv. subst v.
  unfold bind at 2. rewrite E. apply IH.
Qed.

(** C8.  The moving-average filter with window size 1 is the identity: one
    pass returns its input, and so does any number of passes. *)
Theorem boxcar_window_one_identity (data : list double) (numPasses : Z) :
  Filter.boxcarPass data 1 = data /\ Filter.applyBoxcar data 1 numPasses = data.
Proof.
  split; [apply boxcarPass_one|].
  unfold Filter.applyBoxcar. apply fold_left_fixed.
  intros _. apply boxcarPass_one.
Qed.

(** C5, as the code has it.  A size [<= 0] makes the moving-average pass the
    identity, for any number of passes.  The Savitzky-Golay pass has no such
    case: a size [<= 0] is replaced by 5 with a warning, as any size other
    than 5, 11 and 17 is, and the pass is the 5-point one.  Both filters
    return an empty sequence empty, whatever the size and the number of
    passes. *)
Theorem degenerate_filter_size (data : list double) (filterSize numPasses : Z) :
  ((filterSize <= 0)%Z ->
     Filter.boxcarPass data filterSize = data
     /\ Filter.applyBoxcar data filterSize numPasses = data
     /\ value (Filter.sgPass data filterSize) = Filter.sgConvolve data 5
     /\ Filter.sgPass data filterSize
        = (value (Filter.sgPass data 5),
           ["Warning: SG filter size should be 5, 11, or 17. Using 5."%string]))
  /\ Filter.boxcarPass [] filterSize = []
  /\ Filter.applyBoxcar [] filterSize numPasses = []
  /\ value (Filter.sgPass [] filterSize) = []
  /\ value (Filter.applySavitzkyGolay [] filterSize numPasses) = [].
Proof.
  split; [intro H; repeat split|repeat split].
  - now apply boxcarPass_nonpositive.
  - unfold Filter.applyBoxcar. apply fold_left_fixed.
    intros _. now apply boxcarPass_nonpositive.
  - rewrite sgPass_fallback by lia. reflexivity.
  - rewrite sgPass_fallback by lia. reflexivity.
  - unfold Filter.boxcarPass. now rewrite orb_true_r.
  - unfold Filter.applyBoxcar. apply fold_left_fixed.
    intros _. unfold Filter.boxcarPass. now rewrite orb_true_r.
  - apply sgPass_empty.
  - unfold Filter.applySavitzkyGolay. apply applySavitzkyGolay_empty.
Qed.

Lemma degenerate_filter_size_witness :
  Filter.boxcarPass [1; 2; 3] 0 = [1; 2; 3]
  /\ Filter.applyBoxcar [1; 2; 3] 0 4 = [1; 2; 3]
  /\ value (Filter.sgPass [1; 2; 3] 0) = Filter.sgConvolve [1; 2; 3] 5.
Proof.
  destruct (degenerate_filter_size [1; 2; 3] 0 4) as [H _].
  destruct H as (H1 & H2 & H3 & _); [lia|].
  exact (conj H1 (conj H2 H3)).
Defined.

(** C5 as stated fails for the Savitzky-Golay pass: with size 0 the pass
    smooths [1; 2; 3] with the 5-point kernel and does not return it. *)
Lemma sgPass_size_zero_not_identity :
  Filter.sgPass [1; 2; 3] 0
  = ([47 # 35; 70 # 35; 93 # 35],
     ["Warning: SG filter size should be 5, 11, or 17. Using 5."%string])
  /\ Vec.eqb (value (Filter.sgPass [1; 2; 3] 0)) [1; 2; 3] = false.
Proof. split; vm_compute; reflexivity. Qed.

(** ** Quadrature *)

(** C7.  On an interpolant that is not computed, each of the four methods
    writes the error line and returns exactly 0, whatever the interval and
    the tolerance. *)
Theorem integration_requires_computed
        (s : CubicSpline.t) (a b tolerance : double) (fuel : nat) :
  CubicSpline.isComputed s = false ->
  Integration.newtonCotes s a b tolerance = (0, [Integration.notComputed])
  /\ Integration.romberg s a b tolerance = (0, [Integration.notComputed])
  /\ Integration.adaptive fuel s a b tolerance
     = (Some 0, [Integration.notComputed])
  /\ Integration.gaussLegendre s a b = (0, [Integration.notComputed]).
Proof.
  intro H.
  unfold Integration.newtonCotes, Integration.romberg, Integration.adaptive,
    Integration.gaussLegendre.
  rewrite H. repeat split.
Qed.

Lemma integration_requires_computed_witness :
  Integration.newtonCotes CubicSpline.init 0 1 1e-8
  = (0, [Integration.notComputed])
  /\ Integration.romberg CubicSpline.init 0 1 1e-8
     = (0, [Integration.notComputed])
  /\ Integration.adaptive 7 CubicSpline.init 0 1 1e-8
     = (Some 0, [Integration.notComputed])
  /\ Integration.gaussLegendre CubicSpline.init 0 1
     = (0, [Integration.notComputed]).
Proof.
  apply (integration_requires_computed CubicSpline.init 0 1 1e-8 7).
  reflexivity.
Defined.

(** One level of the adaptive recursion, as an equation. *)
Lemma adaptiveHelper_step (fuel : nat) (s : CubicSpline.t)
      (a b tolerance fa fb fmid : double) :
  Integration.adaptiveHelper (S fuel) s a b tolerance fa fb fmid
  = let mid := (a + b) / 2 in
    let h := b - a in
    let S_whole := (h / 6) * (fa + 4 * fmid + fb) in
    let f_leftMid := CubicSpline.evaluate s ((a + mid) / 2) in
    let S_left := (h / 12) * (fa + 4 * f_leftMid + fmid) in
    let f_rightMid := CubicSpline.evaluate s ((mid + b) / 2) in
    let S_right := (h / 12) * (fmid + 4 * f_rightMid + fb) in
    let S_split := S_left + S_right in
    if Num.fabs (S_split - S_whole) / 15 <? tolerance
    then Some (S_split + (S_split - S_whole) / 15)
    else
      match Integration.adaptiveHelper fuel s a mid (tolerance / 2)
                                       fa fmid f_leftMid with
      | None => None
      | Some left_integral =>
          match Integration.adaptiveHelper fuel s mid b (tolerance / 2)
                                           fmid fb f_rightMid with
          | None => None
          | Some right_integral => Some (left_integral + right_integral)
          end
      end.
Proof. reflexivity. Qed.

Lemma error_estimate_nonnegative (u : double) : 0 <= Num.fabs u / 15.
Proof.
  unfold Num.fabs, Qdiv. apply Qmult_le_0_compat.
  - apply Qabs_nonneg.
  - discriminate.
Qed.

Lemma half_nonpositive (t : double) : t <= 0 -> t / 2 <= 0.
Proof.
  destruct t as [n d]. unfold Qle. simpl. lia.
Qed.

(** A result, once reached, is the result at every larger depth. *)
Lemma adaptiveHelper_more_fuel (fuel : nat) :
  forall (s : CubicSpline.t) (a b tolerance fa fb fmid r : double),
    Integration.adaptiveHelper fuel s a b tolerance fa fb fmid = Some r ->
    Integration.adaptiveHelper (S fuel) s a b tolerance fa fb fmid = Some r.
Proof.
  induction fuel as [|fuel IH]; intros s a b tolerance fa fb fmid r H;
    [discriminate|].
  rewrite adaptiveHelper_step in H. rewrite adaptiveHelper_step.
  cbv zeta in H |- *.
  destruct (Num.fabs _ / 15 <? tolerance); [exact H|].
  destruct (Integration.adaptiveHelper fuel s a _ _ _ _ _) as [l|] eqn:El;
    [|discriminate].
  destruct (Integration.adaptiveHelper fuel s _ b _ _ _ _) as [r'|] eqn:Er;
    [|discriminate].
  now rewrite (IH _ _ _ _ _ _ _ _ El), (IH _ _ _ _ _ _ _ _ Er).
Qed.

(** C6, as the code has it.  The adaptive recursion carries no depth limit:
    a call stops only when its error estimate is below its tolerance.  With
    a tolerance that is zero or negative this never happens, at any depth. *)
Theorem adaptive_stops_by_tolerance_only (fuel : nat) :
  forall (s : CubicSpline.t) (a b tolerance fa fb fmid : double),
    tolerance <= 0 ->
    Integration.adaptiveHelper fuel s a b tolerance fa fb fmid = None.
Proof.
  induction fuel as [|fuel IH]; intros s a b tolerance fa fb fmid Htol;
    [reflexivity|].
  rewrite adaptiveHelper_step. cbv zeta.
  rewrite (proj2 (ltb_ge _ _)).
  - rewrite IH; [reflexivity|]. now apply half_nonpositive.
  - apply Qle_trans with 0; [exact Htol|apply error_estimate_nonnegative].
Qed.

Lemma adaptive_stops_by_tolerance_only_witness :
  Integration.adaptiveHelper 25 Data.ramp 1 2 (-1) 0 2 1 = None.
Proof.
  apply (adaptive_stops_by_tolerance_only 25 Data.ramp 1 2 (-1) 0 2 1).
  discriminate.
Defined.

(** On a straight line the three tolerance-driven methods return the exact
    area, the adaptive one at its first level. *)
Lemma quadrature_on_line :
  (exists r, value (Integration.adaptive 1 Data.ramp 1 2 1e-8) = Some r
             /\ r == 1)
  /\ value (Integration.newtonCotes Data.ramp 1 2 1e-8) == 1
  /\ value (Integration.romberg Data.ramp 1 2 1e-8) == 1.
Proof.
  split; [|split].
  - eexists. split; [vm_compute; reflexivity|reflexivity].
  - vm_compute. reflexivity.
  - vm_compute. reflexivity.
Qed.

(** C6 as stated fails: on the straight line [Data.ramp] with tolerance 0
    no depth is enough for the recursion to return. *)
Lemma adaptive_depth_unbounded :
  ~ exists (fuel : nat) (r : double),
      value (Integration.adaptive fuel Data.ramp 1 2 0) = Some r.
Proof.
  intros (fuel & r & H).
  unfold Integration.adaptive in H.
  replace (negb (CubicSpline.isComputed Data.ramp)) with false in H
    by (vm_compute; reflexivity).
  cbn [value ret fst] in H.
  rewrite adaptive_stops_by_tolerance_only in H; [discriminate|].
  apply Qle_refl.
Qed.

(** ** Peak detection *)

(** The scan keeps [maxY] at or above the baseline, and strictly above it
    once [foundDataPoint] is set. *)
Lemma scan_invariant (xData yData : list double) (baseline xBegin xEnd : double)
      (js : list nat) :
  forall (maxY maxX : double) (found : bool),
    baseline <= maxY ->
    (found = true -> baseline < maxY) ->
    forall (m x : double) (f : bool),
      fold_left
        (fun '(maxY, maxX, foundDataPoint) j =>
           if (Vec.at_ xData j >=? xBegin) && (Vec.at_ xData j <=? xEnd) then
             if Vec.at_ yData j >? maxY
             then (Vec.at_ yData j, Vec.at_ xData j, true)
             else (maxY, maxX, foundDataPoint)
           else (maxY, maxX, foundDataPoint))
        js (maxY, maxX, found) = (m, x, f) ->
      baseline <= m /\ (f = true -> baseline < m).
Proof.
  induction js as [|j js IH]; intros maxY maxX found Hle Hlt m x f H.
  - cbn in H. inversion H; subst. now split.
  - cbn [fold_left] in H.
    destruct ((Vec.at_ xData j >=? xBegin) && (Vec.at_ xData j <=? xEnd)).
    + destruct (Vec.at_ yData j >? maxY) eqn:E.
      * apply gtb_lt in E.
        assert (baseline < Vec.at_ yData j) as Hnew
            by (eapply Qle_lt_trans; eassumption).
        apply (IH _ _ _ (Qlt_le_weak _ _ Hnew) (fun _ => Hnew) _ _ _ H).
      * apply (IH _ _ _ Hle Hlt _ _ _ H).
    + apply (IH _ _ _ Hle Hlt _ _ _ H).
Qed.

Lemma pairPeak_maximum (s : CubicSpline.t) (xData yData : list double)
      (baseline xBegin xEnd : double) (p : PeakDetector.Peak) :
  PeakDetector.pairPeak s xData yData baseline xBegin xEnd = Some p ->
  baseline < PeakDetector.maximum p.
Proof.
  unfold PeakDetector.pairPeak. cbv zeta.
  destruct (CubicSpline.evaluate s ((xBegin + xEnd) / 2) <=? baseline);
    [discriminate|].
  destruct (PeakDetector.scanData xData yData baseline xBegin xEnd
                                  ((xBegin + xEnd) / 2))
    as [[m x] f] eqn:E.
  destruct f; cbn [negb]; [|discriminate].
  destruct (Num.fabs _ <? 0.02); [discriminate|].
  intro H. inversion H; subst p. cbn [PeakDetector.maximum].
  unfold PeakDetector.scanData in E.
  apply (scan_invariant _ _ _ _ _ _ _ _ _ (Qle_refl baseline)
                        (fun h => False_ind _ (diff_false_true h)) _ _ _ E).
  reflexivity.
Qed.

Lemma pairLoop_maximum (s : CubicSpline.t) (xData yData : list double)
      (baseline : double) (crossings : list double) (ks : list nat) :
  forall peaks : list PeakDetector.Peak,
    Forall (fun p => baseline < PeakDetector.maximum p) peaks ->
    Forall (fun p => baseline < PeakDetector.maximum p)
      (fold_left
         (fun peaks i =>
            match PeakDetector.pairPeak s xData yData baseline
                    (Vec.at_ crossings i) (Vec.at_ crossings (i + 1)) with
            | Some peak => peaks ++ [peak]
            | None => peaks
            end)
         ks peaks).
Proof.
  induction ks as [|i ks IH]; intros peaks H; [exact H|].
  cbn [fold_left]. apply IH.
  destruct (PeakDetector.pairPeak s xData yData baseline _ _) as [p|] eqn:E;
    [|exact H].
  apply Forall_app. split; [exact H|].
  constructor; [|constructor]. exact (pairPeak_maximum _ _ _ _ _ _ _ E).
Qed.

(** C9.  Every peak that [detectPeaks] returns has its maximum strictly
    above the baseline. *)
Theorem detected_maximum_above_baseline
        (s : CubicSpline.t) (xData yData : list double) (baseline : double)
        (p : PeakDetector.Peak) :
  In p (value (PeakDetector.detectPeaks s xData yData baseline)) ->
  baseline < PeakDetector.maximum p.
Proof.
  unfold PeakDetector.detectPeaks.
  destruct (negb (CubicSpline.isComputed s) || Vec.empty xData
            || Vec.empty yData); [intros []|].
  destruct (negb (length xData =? length yData)%nat); [intros []|].
  cbv zeta.
  destruct (length (PeakDetector.edgeCrossings _ _ _ _) <? 2)%nat;
    [intros []|].
  cbn [value ret fst]. intro H.
  pose proof (pairLoop_maximum s xData yData baseline
                (PeakDetector.sort
                   (PeakDetector.edgeCrossings s baseline
                      (PeakDetector.min_element xData)
                      (PeakDetector.max_element xData)))
                (seq 0 (length (PeakDetector.sort
                   (PeakDetector.edgeCrossings s baseline
                      (PeakDetector.min_element xData)
                      (PeakDetector.max_element xData))) - 1))
                [] (Forall_nil _)) as HF.
  rewrite Forall_forall in HF. exact (HF p H).
Qed.

Lemma detected_maximum_above_baseline_witness :
  1.001 < PeakDetector.maximum
            (hd (Data.peakOfArea 0)
                (value (PeakDetector.detectPeaks Data.ramp [1; 2] [0; 2] 1.001))).
Proof.
  apply (detected_maximum_above_baseline Data.ramp [1; 2] [0; 2] 1.001).
  vm_compute. left. reflexivity.
Defined.

(** The two edge rules fire only on a non-empty list of interior crossings. *)
Lemma edgeCrossings_shape (s : CubicSpline.t) (baseline xMin xMax : double) :
  PeakDetector.edgeCrossings s baseline xMin xMax
  = (if (CubicSpline.evaluate s xMin >? baseline)
        && negb (Vec.empty (CubicSpline.findCrossings s baseline xMin xMax))
     then [xMin] else [])
    ++ CubicSpline.findCrossings s baseline xMin xMax
    ++ (if (CubicSpline.evaluate s xMax >? baseline)
           && negb (Vec.empty (CubicSpline.findCrossings s baseline xMin xMax))
        then [xMax] else []).
Proof.
  unfold PeakDetector.edgeCrossings. cbv zeta.
  destruct (CubicSpline.findCrossings s baseline xMin xMax) as [|c cs].
  - now rewrite !andb_false_r.
  - cbn [Vec.empty negb]. rewrite !andb_true_r.
    destruct (CubicSpline.evaluate s xMin >? baseline);
      destruct (CubicSpline.evaluate s xMax >? baseline);
      cbn [Vec.empty negb andb app]; rewrite ?app_nil_r; reflexivity.
Qed.

(** C4, as the code has it.  [xMin] is prepended when the value at the left
    boundary exceeds the baseline and the interior search found at least one
    crossing; [xMax] is appended under the symmetric condition.  When the
    interior search finds no crossing neither is added, the crossing list
    stays empty and no peak is reported. *)
Theorem edge_crossings_need_interior_crossing
        (s : CubicSpline.t) (xData yData : list double)
        (baseline xMin xMax : double) :
  PeakDetector.edgeCrossings s baseline xMin xMax
  = (if (CubicSpline.evaluate s xMin >? baseline)
        && negb (Vec.empty (CubicSpline.findCrossings s baseline xMin xMax))
     then [xMin] else [])
    ++ CubicSpline.findCrossings s baseline xMin xMax
    ++ (if (CubicSpline.evaluate s xMax >? baseline)
           && negb (Vec.empty (CubicSpline.findCrossings s baseline xMin xMax))
        then [xMax] else [])
  /\ (CubicSpline.findCrossings s baseline xMin xMax = [] ->
      PeakDetector.edgeCrossings s baseline xMin xMax = [])
  /\ (CubicSpline.findCrossings s baseline (PeakDetector.min_element xData)
                                (PeakDetector.max_element xData) = [] ->
      value (PeakDetector.detectPeaks s xData yData baseline) = []).
Proof.
  split; [apply edgeCrossings_shape|]. split.
  - intro H. rewrite edgeCrossings_shape, H. now rewrite !andb_false_r.
  - intro H. unfold PeakDetector.detectPeaks.
    destruct (negb (CubicSpline.isComputed s) || Vec.empty xData
              || Vec.empty yData); [reflexivity|].
    destruct (negb (length xData =? length yData)%nat); [reflexivity|].
    cbv zeta. rewrite edgeCrossings_shape, H. now rewrite !andb_false_r.
Qed.

Lemma edge_crossings_need_interior_crossing_witness :
  PeakDetector.edgeCrossings Data.flat 1 0 1 = []
  /\ value (PeakDetector.detectPeaks Data.flat [0; 1] [5; 5] 1) = [].
Proof.
  destruct (edge_crossings_need_interior_crossing Data.flat [0; 1] [5; 5] 1 0 1)
    as (_ & H1 & H2).
  split; [apply H1|apply H2]; vm_compute; reflexivity.
Defined.

(** C4 as stated fails: the constant signal [Data.flat] lies above the
    baseline 1 at both boundaries, the interior search finds no crossing,
    no synthetic crossing is added and no peak is reported. *)
Lemma signal_above_baseline_has_no_peak :
  (CubicSpline.evaluate Data.flat 0 >? 1) = true
  /\ (CubicSpline.evaluate Data.flat 1 >? 1) = true
  /\ CubicSpline.findCrossings Data.flat 1 0 1 = []
  /\ PeakDetector.edgeCrossings Data.flat 1 0 1 = []
  /\ PeakDetector.detectPeaks Data.flat [0; 1] [5; 5] 1 = ([], []).
Proof. repeat split; vm_compute; reflexivity. Qed.

(** ** Hydrogen counts *)

(** C10.  [calculateHydrogens] keeps the number of peaks and, peak by peak,
    every field other than [hydrogens]. *)
Theorem calculateHydrogens_frame (peaks : list PeakDetector.Peak) :
  length (PeakDetector.calculateHydrogens peaks) = length peaks
  /\ map otherFields (PeakDetector.calculateHydrogens peaks)
     = map otherFields peaks.
Proof.
  unfold PeakDetector.calculateHydrogens.
  destruct (Vec.empty peaks); [now split|]. cbv zeta. split.
  - apply length_map.
  - rewrite map_map. apply map_ext. intros [b e l m a h]. reflexivity.
Qed.

(** When the first area is not positive, no later area replaces it as the
    divisor. *)
Lemma minArea_first_not_positive
      (first : PeakDetector.Peak) (rest : list PeakDetector.Peak) :
  PeakDetector.area first <= 0 ->
  PeakDetector.minArea (first :: rest) = PeakDetector.area first.
Proof.
  intro H. unfold PeakDetector.minArea.
  apply fold_left_fixed. intro p.
  destruct (PeakDetector.area p >? 0) eqn:E1; [|reflexivity].
  destruct (PeakDetector.area p <? PeakDetector.area first) eqn:E2;
    [|reflexivity].
  apply gtb_lt in E1. apply ltb_lt in E2. exfalso.
  apply (Qlt_irrefl 0).
  apply Qlt_trans with (PeakDetector.area p); [exact E1|].
  eapply Qlt_le_trans; eassumption.
Qed.

(** C2 at its failing input: areas -1, 2 and 4.  The divisor is the first
    area, -1, not the least positive area 2, and the counts are 1, -2, -4. *)
Lemma hydrogens_with_first_area_negative :
  PeakDetector.minArea (map Data.peakOfArea [-1; 2; 4]) = -1
  /\ map PeakDetector.hydrogens
         (PeakDetector.calculateHydrogens (map Data.peakOfArea [-1; 2; 4]))
     = [1; -2; -4]%Z
  /\ map (fun a => Num.round (a / 2)) [-1; 2; 4] = [-1; 1; 2]%Z.
Proof. repeat split; vm_compute; reflexivity. Qed.

(** ** Spline fitting *)

(** The fuel given to the binary search is enough: any more of it changes
    nothing, so [locate] is the source's [while] loop run to its end. *)
Lemma locate_fuel_enough (xs : list double) (xVal : double) (fuel : nat) :
  forall (left right extra : nat),
    (right - left <= fuel)%nat ->
    CubicSpline.locate (fuel + extra) xs xVal left right
    = CubicSpline.locate fuel xs xVal left right.
Proof.
  induction fuel as [|fuel IH]; intros left right extra H.
  - cbn [Nat.add CubicSpline.locate]. destruct extra as [|extra];
      [reflexivity|].
    cbn [CubicSpline.locate].
    now rewrite (proj2 (Nat.ltb_ge 1 (right - left))) by lia.
  - cbn [Nat.add CubicSpline.locate].
    destruct (1 <? right - left)%nat eqn:E; [|reflexivity].
    apply Nat.ltb_lt in E.
    assert ((left + right) / 2 - left <= fuel)%nat as Hl
        by (pose proof (Nat.div_mod_eq (left + right) 2);
            pose proof (Nat.mod_upper_bound (left + right) 2); lia).
    assert (right - (left + right) / 2 <= fuel)%nat as Hr
        by (pose proof (Nat.div_mod_eq (left + right) 2);
            pose proof (Nat.mod_upper_bound (left + right) 2); lia).
    destruct (xVal <? Vec.at_ xs ((left + right) / 2)); now apply IH.
Qed.

(** The size checks come before any assignment: on that path the call
    fails and the members are those it was called with. *)
Lemma compute_rejects_sizes
      (solve : Mat.mat -> list double -> list double)
      (s : CubicSpline.t) (xData yData : list double) :
  length xData <> length yData \/ (length xData < 2)%nat ->
  CubicSpline.compute solve s xData yData
  = ((false, s), ["Error: Invalid data for spline computation"%string]).
Proof.
  intro H. unfold CubicSpline.compute.
  replace (negb (length xData =? length yData)%nat
           || (length xData <? 2)%nat) with true; [reflexivity|].
  symmetry. apply orb_true_iff. destruct H as [H|H].
  - left. apply negb_true_iff. now apply Nat.eqb_neq.
  - right. now apply Nat.ltb_lt.
Qed.

(** The order check comes after the knots have been stored: with three or
    more points and a width [<= 0] the call fails, and the object holds the
    new knots, resized coefficient arrays and its old flag. *)
Lemma compute_stores_before_order_check
      (solve : Mat.mat -> list double -> list double)
      (s : CubicSpline.t) (xData yData : list double) :
  length xData = length yData ->
  (3 <= length xData)%nat ->
  CubicSpline.widths xData (length xData) = None ->
  CubicSpline.compute solve s xData yData
  = ((false,
      CubicSpline.mk xData yData
        (Vec.resize (CubicSpline.b s) (length xData))
        (Vec.resize (CubicSpline.c s) (length xData))
        (Vec.resize (CubicSpline.d s) (length xData))
        (CubicSpline.computed s)),
     ["Error: x values must be strictly increasing"%string]).
Proof.
  intros Hlen H3 Hw. unfold CubicSpline.compute.
  rewrite <- Hlen, Nat.eqb_refl.
  rewrite (proj2 (Nat.ltb_ge (length xData) 2)) by lia.
  cbn [negb orb]. cbv zeta.
  rewrite (proj2 (Nat.eqb_neq (length xData) 2)) by lia.
  cbn [CubicSpline.x]. rewrite Hw. reflexivity.
Qed.


(** C1 at its failing inputs.  After the fit [Data.line], a call with the
    knots 0, 1, 1 fails, and the object then holds those knots, arrays of
    three coefficients and the flag of the old fit.  A first call with the
    two knots 1, 0 does not fail at all. *)
Lemma compute_failure_is_not_atomic
      (solve : Mat.mat -> list double -> list double) :
  Data.line = CubicSpline.mk [0; 1] [0; 1] [1; 1] [0; 0] [0; 0] true
  /\ CubicSpline.compute solve Data.line [0; 1; 1] [0; 0; 0]
     = ((false,
         CubicSpline.mk [0; 1; 1] [0; 0; 0] [1; 1; 0] [0; 0; 0] [0; 0; 0] true),
        ["Error: x values must be strictly increasing"%string])
  /\ CubicSpline.compute solve CubicSpline.init [1; 0] [0; 1]
     = ((true, CubicSpline.mk [1; 0] [0; 1] [-1; -1] [0; 0] [0; 0] true), []).
Proof. split; [|split]; reflexivity. Qed.

(** ** Where the scan and the divisor do what the specification says *)

(** Reading two vectors of one size by index is reading their pairs. *)
Lemma indexed_pairs (xs : list double) :
  forall ys : list double,
    length xs = length ys ->
    map (fun j => (Vec.at_ xs j, Vec.at_ ys j)) (seq 0 (length xs))
    = combine xs ys.
Proof.
  induction xs as [|a xs IH]; intros [|c ys] H; try discriminate;
    [reflexivity|].
  cbn [length seq map combine]. f_equal.
  rewrite <- seq_shift, map_map. apply IH. now injection H.
Qed.

Lemma fold_left_through_map {A B C : Type} (f : A -> C -> A) (g : B -> C)
      (l : list B) :
  forall a : A, fold_left (fun acc j => f acc (g j)) l a = fold_left f (map g l) a.
Proof.
  induction l as [|j l IH]; intro a; [reflexivity|]. cbn. apply IH.
Qed.

Lemma fold_left_pointwise {A B : Type} (f g : A -> B -> A) (l : list B) :
  (forall a b, f a b = g a b) ->
  forall a : A, fold_left f l a = fold_left g l a.
Proof.
  intro H. induction l as [|b l IH]; intro a; [reflexivity|].
  cbn. rewrite H. apply IH.
Qed.

Lemma scanData_as_pairs (xData yData : list double)
      (baseline xBegin xEnd xMid : double) :
  length xData = length yData ->
  PeakDetector.scanData xData yData baseline xBegin xEnd xMid
  = fold_left (scanStep xBegin xEnd) (combine xData yData)
              (baseline, xMid, false).
Proof.
  intro H. unfold PeakDetector.scanData.
  rewrite <- (indexed_pairs xData yData H).
  rewrite <- (fold_left_through_map (scanStep xBegin xEnd)
                (fun j => (Vec.at_ xData j, Vec.at_ yData j))).
  apply fold_left_pointwise. intros [[maxY maxX] found] j. reflexivity.
Qed.

(** The running maximum bounds every data point of the pair seen so far,
    and once it has moved it is one of them. *)
Lemma scan_maximum (xBegin xEnd : double) (l : list (double * double)) :
  forall (m0 x0 : double) (f0 : bool) (m x : double) (f : bool),
    fold_left (scanStep xBegin xEnd) l (m0, x0, f0) = (m, x, f) ->
    m0 <= m
    /\ (forall xy, In xy (filter (fun xy => (fst xy >=? xBegin)
                                            && (fst xy <=? xEnd)) l) ->
                   snd xy <= m)
    /\ ((m, x, f) = (m0, x0, f0)
        \/ (f = true
            /\ In (x, m) (filter (fun xy => (fst xy >=? xBegin)
                                            && (fst xy <=? xEnd)) l))).
Proof.
  induction l as [|[a c] l IH]; intros m0 x0 f0 m x f H.
  - cbn in H. inversion H; subst. repeat split.
    + apply Qle_refl.
    + intros xy [].
    + now left.
  - cbn [fold_left] in H. unfold scanStep at 2 in H. cbn [fst snd] in H.
    cbn [filter fst snd].
    destruct ((a >=? xBegin) && (a <=? xEnd)) eqn:Ein.
    + destruct (c >? m0) eqn:Egt.
      * apply gtb_lt in Egt.
        destruct (IH _ _ _ _ _ _ H) as (Hle & Hall & Hor).
        split; [apply Qle_trans with c; [now apply Qlt_le_weak|exact Hle]|].
        split.
        -- intros xy [Heq|Hin]; [subst xy; exact Hle|now apply Hall].
        -- right. destruct Hor as [Heq|[Hf Hin]].
           ++ inversion Heq; subst. split; [reflexivity|now left].
           ++ split; [exact Hf|now right].
      * apply ltb_ge in Egt.
        destruct (IH _ _ _ _ _ _ H) as (Hle & Hall & Hor).
        split; [exact Hle|]. split.
        -- intros xy [Heq|Hin];
             [subst xy; now apply Qle_trans with m0|now apply Hall].
        -- destruct Hor as [Heq|[Hf Hin]]; [now left|].
           right. split; [exact Hf|now right].
    + apply (IH _ _ _ _ _ _ H).
Qed.

(** A pair that passes the midpoint test, lies away from the origin and has
    a data point above the baseline yields a peak, and its maximum is the
    largest y among all the data points of the pair. *)
Lemma pairPeak_largest_sample
      (s : CubicSpline.t) (xData yData : list double)
      (baseline xBegin xEnd : double) (hit : double * double) :
  length xData = length yData ->
  (CubicSpline.evaluate s ((xBegin + xEnd) / 2) <=? baseline) = false ->
  (Num.fabs ((xBegin + xEnd) / 2) <? 0.02) = false ->
  In hit (inRange xData yData xBegin xEnd) ->
  baseline < snd hit ->
  exists m x : double,
    PeakDetector.pairPeak s xData yData baseline xBegin xEnd
    = Some (PeakDetector.mkPeak xBegin xEnd ((xBegin + xEnd) / 2) m 0 0)
    /\ In (x, m) (inRange xData yData xBegin xEnd)
    /\ forall xy, In xy (inRange xData yData xBegin xEnd) -> snd xy <= m.
Proof.
  intros Hlen Hmid Hzero Hin Habove.
  unfold PeakDetector.pairPeak. cbv zeta. rewrite Hmid.
  rewrite (scanData_as_pairs _ _ _ _ _ _ Hlen).
  match goal with
  | |- context [fold_left ?step ?l ?a] =>
      destruct (fold_left step l a) as [[m x] f] eqn:E
  end.
  destruct (scan_maximum _ _ _ _ _ _ _ _ _ E) as (_ & Hall & Hor).
  fold (inRange xData yData xBegin xEnd) in Hall, Hor.
  destruct Hor as [Heq|[Hf Hfound]].
  - inversion Heq; subst. exfalso.
    apply (Qlt_not_le _ _ Habove). now apply Hall.
  - subst f. cbn [negb PeakDetector.location]. rewrite Hzero.
    exists m, x. repeat split; assumption.
Qed.

(** With a positive first area the divisor is the least positive area. *)
Lemma minArea_fold (l : list PeakDetector.Peak) :
  forall m0 : double,
    0 < m0 ->
    forall m : double,
      fold_left
        (fun minArea peak =>
           if (PeakDetector.area peak >? 0) && (PeakDetector.area peak <? minArea)
           then PeakDetector.area peak else minArea)
        l m0 = m ->
      0 < m /\ m <= m0
      /\ (m = m0 \/ exists p, In p l /\ PeakDetector.area p = m)
      /\ (forall p, In p l -> 0 < PeakDetector.area p -> m <= PeakDetector.area p).
Proof.
  induction l as [|q l IH]; intros m0 Hpos m H.
  - cbn in H. subst m. repeat split; [exact Hpos|apply Qle_refl|now left|].
    intros p [].
  - cbn [fold_left] in H.
    destruct ((PeakDetector.area q >? 0) && (PeakDetector.area q <? m0)) eqn:E.
    + apply andb_true_iff in E. destruct E as [E1 E2].
      apply gtb_lt in E1. apply ltb_lt in E2.
      destruct (IH _ E1 _ H) as (Hm & Hle & Hor & Hall).
      split; [exact Hm|]. split.
      * apply Qle_trans with (PeakDetector.area q);
          [exact Hle|now apply Qlt_le_weak].
      * split.
        -- right. destruct Hor as [Heq|(p & Hp & Ha)].
           ++ exists q. split; [now left|now symmetry].
           ++ exists p. split; [now right|exact Ha].
        -- intros p [Heq|Hin] Hp; [subst p; exact Hle|now apply Hall].
    + destruct (IH _ Hpos _ H) as (Hm & Hle & Hor & Hall).
      split; [exact Hm|]. split; [exact Hle|]. split.
      * destruct Hor as [Heq|(p & Hp & Ha)]; [now left|].
        right. exists p. split; [now right|exact Ha].
      * intros p [Heq|Hin] Hp; [subst p|now apply Hall].
        apply Qle_trans with m0; [exact Hle|].
        apply andb_false_iff in E. destruct E as [E|E].
        -- exfalso. apply ltb_ge in E. apply (Qlt_not_le _ _ Hp E).
        -- now apply ltb_ge in E.
Qed.

Lemma minArea_first_positive
      (first : PeakDetector.Peak) (rest : list PeakDetector.Peak) :
  0 < PeakDetector.area first ->
  0 < PeakDetector.minArea (first :: rest)
  /\ (exists p, In p (first :: rest)
                /\ PeakDetector.area p = PeakDetector.minArea (first :: rest))
  /\ (forall p, In p (first :: rest) -> 0 < PeakDetector.area p ->
                PeakDetector.minArea (first :: rest) <= PeakDetector.area p).
Proof.
  intro Hpos. unfold PeakDetector.minArea.
  destruct (minArea_fold (first :: rest) _ Hpos _ eq_refl)
    as (Hm & _ & Hor & Hall).
  split; [exact Hm|]. split; [|exact Hall].
  destruct Hor as [Heq|Hex]; [|exact Hex].
  exists first. split; [now left|now symmetry].
Qed.

(** Every count is the rounded quotient of the area by that divisor. *)
Lemma calculateHydrogens_counts
      (first : PeakDetector.Peak) (rest : list PeakDetector.Peak) :
  map PeakDetector.hydrogens (PeakDetector.calculateHydrogens (first :: rest))
  = map (fun p => Num.round (PeakDetector.area p
                             / PeakDetector.minArea (first :: rest)))
        (first :: rest).
Proof.
  unfold PeakDetector.calculateHydrogens. cbn [Vec.empty]. cbv zeta.
  rewrite map_map. apply map_ext. intro p. reflexivity.
Qed.

(** ** Which pairs become peaks *)

Lemma insert_length (a : double) (v : list double) :
  length (PeakDetector.insert a v) = S (length v).
Proof.
  induction v as [|h t IH]; [reflexivity|].
  cbn [PeakDetector.insert]. destruct (a <=? h); cbn [length]; congruence.
Qed.

Lemma sort_length (v : list double) :
  length (PeakDetector.sort v) = length v.
Proof.
  induction v as [|a v IH]; [reflexivity|].
  cbn [PeakDetector.sort fold_right]. fold (PeakDetector.sort v).
  rewrite insert_length. cbn [length]. congruence.
Qed.

(** The loop only ever appends: what was pushed stays, and every index
    whose turn yields a peak has it pushed. *)
Lemma push_keeps {P : Type} (f : nat -> option P) (ks : list nat) :
  forall (acc : list P) (p : P),
    In p acc ->
    In p (fold_left (fun peaks i => match f i with
                                    | Some peak => peaks ++ [peak]
                                    | None => peaks
                                    end) ks acc).
Proof.
  induction ks as [|k ks IH]; intros acc p H; [exact H|].
  cbn [fold_left]. apply IH.
  destruct (f k); [apply in_or_app; now left|exact H].
Qed.

Lemma push_emits {P : Type} (f : nat -> option P) (ks : list nat) :
  forall (acc : list P) (i : nat) (p : P),
    In i ks -> f i = Some p ->
    In p (fold_left (fun peaks i => match f i with
                                    | Some peak => peaks ++ [peak]
                                    | None => peaks
                                    end) ks acc).
Proof.
  induction ks as [|k ks IH]; intros acc i p Hin Hf; [destruct Hin|].
  cbn [fold_left]. destruct Hin as [Heq|Hin].
  - subst k. rewrite Hf. apply push_keeps. apply in_or_app. right. now left.
  - now apply (IH _ i).
Qed.

Lemma pairLoop_emits (s : CubicSpline.t) (xData yData : list double)
      (baseline : double) (crossings : list double) (i : nat)
      (p : PeakDetector.Peak) :
  (i + 1 < length crossings)%nat ->
  PeakDetector.pairPeak s xData yData baseline
    (Vec.at_ crossings i) (Vec.at_ crossings (i + 1)) = Some p ->
  In p (PeakDetector.pairLoop s xData yData baseline crossings).
Proof.
  intros Hi Hp. unfold PeakDetector.pairLoop.
  apply (push_emits
           (fun i => PeakDetector.pairPeak s xData yData baseline
                       (Vec.at_ crossings i) (Vec.at_ crossings (i + 1)))
           _ _ i p); [|exact Hp].
  apply in_seq. lia.
Qed.

(** Where the scan does what is asked of it.  Take a pair of consecutive
    crossings that passes the midpoint test and whose midpoint is not
    within 0.02 of the origin.  If some data point of the pair lies above
    the baseline, then [detectPeaks] returns a peak for the pair, and its
    maximum is the largest y among all the data points of the pair. *)
Lemma detectPeaks_emits_largest_sample
        (s : CubicSpline.t) (xData yData : list double) (baseline : double)
        (i : nat) (hit : double * double) :
  CubicSpline.isComputed s = true ->
  length xData = length yData ->
  (i + 1 < length (crossingsOf s xData baseline))%nat ->
  let xBegin := Vec.at_ (crossingsOf s xData baseline) i in
  let xEnd := Vec.at_ (crossingsOf s xData baseline) (i + 1) in
  (CubicSpline.evaluate s ((xBegin + xEnd) / 2) <=? baseline) = false ->
  (Num.fabs ((xBegin + xEnd) / 2) <? 0.02) = false ->
  In hit (inRange xData yData xBegin xEnd) ->
  baseline < snd hit ->
  exists m x : double,
    In (PeakDetector.mkPeak xBegin xEnd ((xBegin + xEnd) / 2) m 0 0)
       (value (PeakDetector.detectPeaks s xData yData baseline))
    /\ In (x, m) (inRange xData yData xBegin xEnd)
    /\ forall xy, In xy (inRange xData yData xBegin xEnd) -> snd xy <= m.
Proof.
  intros Hc Hlen Hi xBegin xEnd Hmid Hzero Hin Habove.
  destruct (pairPeak_largest_sample s xData yData baseline xBegin xEnd hit
              Hlen Hmid Hzero Hin Habove) as (m & x & Hp & Hxm & Hall).
  exists m, x. split; [|split; assumption].
  assert (Vec.empty xData = false) as Hx
      by (destruct xData; [destruct Hin|reflexivity]).
  assert (Vec.empty yData = false) as Hy
      by (destruct yData; [destruct xData; destruct Hin|reflexivity]).
  unfold PeakDetector.detectPeaks.
  rewrite Hc, Hx, Hy, Hlen, Nat.eqb_refl. cbn [negb orb]. cbv zeta.
  unfold crossingsOf in Hi. rewrite sort_length in Hi.
  rewrite (proj2 (Nat.ltb_ge _ 2)) by lia.
  cbn [value ret fst].
  apply (pairLoop_emits _ _ _ _ _ i); [rewrite sort_length; exact Hi|exact Hp].
Qed.

Lemma detectPeaks_emits_largest_sample_witness :
  exists m x : double,
    In (PeakDetector.mkPeak
          (Vec.at_ (crossingsOf Data.ramp Data.rampX 1.001) 0)
          (Vec.at_ (crossingsOf Data.ramp Data.rampX 1.001) 1)
          ((Vec.at_ (crossingsOf Data.ramp Data.rampX 1.001) 0
            + Vec.at_ (crossingsOf Data.ramp Data.rampX 1.001) 1) / 2) m 0 0)
       (value (PeakDetector.detectPeaks Data.ramp Data.rampX Data.rampY 1.001))
    /\ In (x, m)
          (inRange Data.rampX Data.rampY
             (Vec.at_ (crossingsOf Data.ramp Data.rampX 1.001) 0)
             (Vec.at_ (crossingsOf Data.ramp Data.rampX 1.001) 1))
    /\ forall xy,
         In xy (inRange Data.rampX Data.rampY
                  (Vec.at_ (crossingsOf Data.ramp Data.rampX 1.001) 0)
                  (Vec.at_ (crossingsOf Data.ramp Data.rampX 1.001) 1)) ->
         snd xy <= m.
Proof.
  apply (detectPeaks_emits_largest_sample
           Data.ramp Data.rampX Data.rampY 1.001 0 (2, 2)).
  - reflexivity.
  - reflexivity.
  - vm_compute. apply le_n.
  - vm_compute. reflexivity.
  - vm_compute. reflexivity.
  - vm_compute. left. reflexivity.
  - reflexivity.
Defined.

(** The crossings found for [Data.bump] at level 0, as the model computes
    them: the inner knots 999 and 1001. *)
Lemma bumpCrossings_value :
  Data.bumpCrossings = [1998000000 # 2000000; 2002000000 # 2000000].
Proof. vm_compute. reflexivity. Qed.

(** C3 at its failing input, [Data.bump] with the baseline 0.  The only pair
    of crossings is (999, 1001).  It passes the midpoint test, its midpoint
    1000 is not within 0.02 of the origin, and the data points (999, 0) and
    (1001, 0) lie in it, the largest y among them being 0.  Yet the scan
    ends with [foundDataPoint] unset, because it sets the flag only for a
    data point whose y exceeds [maxY], which starts at the baseline; the
    pair is skipped as if no data point were in range, and no peak is
    returned. *)
Lemma samples_at_baseline_drop_the_pair :
  Vec.eqb Data.bumpCrossings [999; 1001] = true
  /\ (CubicSpline.evaluate Data.bump
        ((Vec.at_ Data.bumpCrossings 0 + Vec.at_ Data.bumpCrossings 1) / 2)
      <=? 0) = false
  /\ (Num.fabs ((Vec.at_ Data.bumpCrossings 0 + Vec.at_ Data.bumpCrossings 1)
                / 2) <? 0.02) = false
  /\ inRange Data.bumpX Data.bumpY
             (Vec.at_ Data.bumpCrossings 0) (Vec.at_ Data.bumpCrossings 1)
     = [(999, 0); (1001, 0)]
  /\ snd (PeakDetector.scanData
            Data.bumpX Data.bumpY 0
            (Vec.at_ Data.bumpCrossings 0) (Vec.at_ Data.bumpCrossings 1)
            ((Vec.at_ Data.bumpCrossings 0 + Vec.at_ Data.bumpCrossings 1)
             / 2)) = false
  /\ PeakDetector.pairPeak
       Data.bump Data.bumpX Data.bumpY 0
       (Vec.at_ Data.bumpCrossings 0) (Vec.at_ Data.bumpCrossings 1) = None
  /\ PeakDetector.detectPeaks Data.bump Data.bumpX Data.bumpY 0 = ([], []).
Proof.
  rewrite bumpCrossings_value. cbn [Vec.at_ nth].
  repeat split; vm_compute; reflexivity.
Qed.

(** What the scan does when no data point of the pair exceeds the baseline:
    the pair yields no peak. *)
Lemma pairPeak_no_sample_above
      (s : CubicSpline.t) (xData yData : list double)
      (baseline xBegin xEnd : double) :
  length xData = length yData ->
  (forall xy, In xy (inRange xData yData xBegin xEnd) -> snd xy <= baseline) ->
  PeakDetector.pairPeak s xData yData baseline xBegin xEnd = None.
Proof.
  intros Hlen Hall. unfold PeakDetector.pairPeak. cbv zeta.
  destruct (CubicSpline.evaluate s ((xBegin + xEnd) / 2) <=? baseline);
    [reflexivity|].
  destruct (PeakDetector.scanData xData yData baseline xBegin xEnd
                                  ((xBegin + xEnd) / 2))
    as [[m x] f] eqn:E.
  destruct f; [|reflexivity]. exfalso.
  pose proof E as E'. unfold PeakDetector.scanData in E'.
  destruct (scan_invariant _ _ _ _ _ _ _ _ _ (Qle_refl baseline)
              (fun h => False_ind _ (diff_false_true h)) _ _ _ E')
    as [_ Habove].
  rewrite (scanData_as_pairs _ _ _ _ _ _ Hlen) in E.
  destruct (scan_maximum _ _ _ _ _ _ _ _ _ E) as (_ & _ & [Heq|[_ Hin]]);
    [discriminate|].
  apply (Qlt_not_le _ _ (Habove eq_refl)). exact (Hall _ Hin).
Qed.

(* ------------------------------------------------------------------ *)
(** * Further properties of the code *)

(** ** More on the filters *)

Lemma reflect_in_range (n idx : Z) :
  (0 < n)%Z -> (0 <= Filter.reflect n idx < n)%Z.
Proof.
  intro Hn. unfold Filter.reflect. cbv zeta.
  repeat (match goal with
          | |- context [(?a <? ?b)%Z] =>
              lazymatch a with
              | context [if _ then _ else _] => fail
              | _ => destruct (Z.ltb_spec a b)
              end
          | |- context [(?a >=? ?b)%Z] =>
              lazymatch a with
              | context [if _ then _ else _] => fail
              | _ => rewrite (Z.geb_leb a b); destruct (Z.leb_spec b a)
              end
          end; cbv iota); lia.
Qed.

(** X1.  On non-empty data the mirror-and-clamp index arithmetic of both
    passes always lands on a valid index, whatever the position and the
    offset; and the coefficient index of the Savitzky-Golay pass is valid
    for each of the three kernels. *)
Theorem filter_reads_in_range (n idx : Z) :
  (0 < n)%Z ->
  (0 <= Filter.reflect n idx < n)%Z
  /\ forall filterSize j : Z,
       filterSize = 5%Z \/ filterSize = 11%Z \/ filterSize = 17%Z ->
       In j (Vec.range (- ((filterSize - 1) ÷ 2)) ((filterSize - 1) ÷ 2)) ->
       (0 <= j + (filterSize - 1) ÷ 2
        < Z.of_nat (length (Filter.sgCoeffs filterSize)))%Z.
Proof.
  intro Hn. split; [now apply reflect_in_range|].
  intros filterSize j Hfs Hj. unfold Vec.range in Hj.
  apply in_map_iff in Hj. destruct Hj as (k & <- & Hin).
  apply in_seq in Hin.
  destruct Hfs as [H|[H|H]]; subst filterSize;
    match goal with
    | |- context [((?fs - 1) ÷ 2)%Z] =>
        let hw := eval vm_compute in ((fs - 1) ÷ 2)%Z in
        change ((fs - 1) ÷ 2)%Z with hw in *;
        let len := eval vm_compute in (length (Filter.sgCoeffs fs)) in
        change (length (Filter.sgCoeffs fs)) with len
    end; lia.
Qed.

Lemma filter_reads_in_range_witness :
  (0 <= Filter.reflect 3 (-2) < 3)%Z
  /\ forall filterSize j : Z,
       filterSize = 5%Z \/ filterSize = 11%Z \/ filterSize = 17%Z ->
       In j (Vec.range (- ((filterSize - 1) ÷ 2)) ((filterSize - 1) ÷ 2)) ->
       (0 <= j + (filterSize - 1) ÷ 2
        < Z.of_nat (length (Filter.sgCoeffs filterSize)))%Z.
Proof. apply (filter_reads_in_range 3 (-2)). reflexivity. Defined.

Lemma range_length (lo hi : Z) :
  length (Vec.range lo hi) = Z.to_nat (hi - lo + 1).
Proof. unfold Vec.range. now rewrite length_map, length_seq. Qed.

Lemma fold_left_iter {A B : Type} (f : A -> A) (l : list B) :
  forall a : A, fold_left (fun r _ => f r) l a = Nat.iter (length l) f a.
Proof.
  induction l as [|b l IH]; intro a; [reflexivity|].
  cbn [fold_left length]. rewrite IH. symmetry. apply Nat.iter_succ_r.
Qed.

Lemma boxcarPass_length (data : list double) (filterSize : Z) :
  length (Filter.boxcarPass data filterSize) = length data.
Proof.
  unfold Filter.boxcarPass.
  destruct ((filterSize <=? 0)%Z || Vec.empty data); [reflexivity|].
  cbv zeta. now rewrite length_map, length_seq.
Qed.

Lemma sgConvolve_length (data : list double) (filterSize : Z) :
  length (Filter.sgConvolve data filterSize) = length data.
Proof.
  unfold Filter.sgConvolve. destruct (Vec.empty data); [reflexivity|].
  cbv zeta. now rewrite length_map, length_seq.
Qed.

Lemma sgPass_value (data : list double) (filterSize : Z) :
  value (Filter.sgPass data filterSize)
  = Filter.sgConvolve data
      (if negb (filterSize =? 5)%Z && negb (filterSize =? 11)%Z
          && negb (filterSize =? 17)%Z then 5%Z else filterSize).
Proof.
  unfold Filter.sgPass.
  destruct (negb (filterSize =? 5)%Z && negb (filterSize =? 11)%Z
            && negb (filterSize =? 17)%Z); reflexivity.
Qed.

Lemma sgPass_length (data : list double) (filterSize : Z) :
  length (value (Filter.sgPass data filterSize)) = length data.
Proof. rewrite sgPass_value. apply sgConvolve_length. Qed.

Lemma sgFold_length (filterSize : Z) (l : list Z) :
  forall m : Cerr (list double),
    length (value (fold_left (fun result (_ : Z) =>
                                r <- result ;; Filter.sgPass r filterSize) l m))
    = length (value m).
Proof.
  induction l as [|p l IH]; intro m; [reflexivity|].
  cbn [fold_left]. rewrite IH. destruct m as [d w]. unfold bind.
  pose proof (sgPass_length d filterSize) as H.
  destruct (Filter.sgPass d filterSize) as [d' w']. exact H.
Qed.

(** X2.  Every pass of either filter, and any number of passes, returns a
    sequence of the length of its input. *)
Theorem filters_preserve_length (data : list double) (filterSize numPasses : Z) :
  length (Filter.boxcarPass data filterSize) = length data
  /\ length (Filter.applyBoxcar data filterSize numPasses) = length data
  /\ length (value (Filter.sgPass data filterSize)) = length data
  /\ length (value (Filter.applySavitzkyGolay data filterSize numPasses))
     = length data.
Proof.
  split; [apply boxcarPass_length|]. split; [|split].
  - unfold Filter.applyBoxcar.
    rewrite (fold_left_iter (fun r => Filter.boxcarPass r filterSize)).
    induction (length (Vec.range 0 (numPasses - 1))) as [|k IH];
      [reflexivity|].
    rewrite Nat.iter_succ. now rewrite boxcarPass_length.
  - apply sgPass_length.
  - unfold Filter.applySavitzkyGolay. apply sgFold_length.
Qed.

(** The laws of the writer. *)
Lemma bind_ret_right {A : Type} (m : Cerr A) : bind m ret = m.
Proof. destruct m as [a l]. unfold bind, ret. now rewrite app_nil_r. Qed.

Lemma bind_ret_left {A B : Type} (a : A) (f : A -> Cerr B) :
  bind (ret a) f = f a.
Proof. unfold bind, ret. now destruct (f a). Qed.

Lemma bind_assoc {A B C : Type} (m : Cerr A) (f : A -> Cerr B)
      (g : B -> Cerr C) :
  bind (bind m f) g = bind m (fun a => bind (f a) g).
Proof.
  destruct m as [a l]. unfold bind.
  destruct (f a) as [b l2]. destruct (g b) as [c l3].
  now rewrite app_assoc.
Qed.

Lemma bind_pointwise {A B : Type} (m : Cerr A) (f g : A -> Cerr B) :
  (forall a, f a = g a) -> bind m f = bind m g.
Proof. intro H. destruct m as [a l]. unfold bind. now rewrite H. Qed.

Lemma passes_count (numPasses : Z) :
  length (Vec.range 0 (numPasses - 1)) = Z.to_nat numPasses.
Proof. rewrite range_length. f_equal. lia. Qed.

Lemma applyBoxcar_iter (data : list double) (filterSize numPasses : Z) :
  Filter.applyBoxcar data filterSize numPasses
  = Nat.iter (Z.to_nat numPasses)
             (fun r => Filter.boxcarPass r filterSize) data.
Proof.
  unfold Filter.applyBoxcar.
  now rewrite (fold_left_iter (fun r => Filter.boxcarPass r filterSize)),
    passes_count.
Qed.

Lemma applySavitzkyGolay_iter (data : list double) (filterSize numPasses : Z) :
  Filter.applySavitzkyGolay data filterSize numPasses
  = Nat.iter (Z.to_nat numPasses)
             (fun result => r <- result ;; Filter.sgPass r filterSize)
             (ret data).
Proof.
  unfold Filter.applySavitzkyGolay.
  now rewrite (fold_left_iter
                 (fun result => r <- result ;; Filter.sgPass r filterSize)),
    passes_count.
Qed.

Lemma sg_iter_from (filterSize : Z) (k : nat) (m : Cerr (list double)) :
  Nat.iter k (fun result => r <- result ;; Filter.sgPass r filterSize) m
  = (d <- m ;;
     Nat.iter k (fun result => r <- result ;; Filter.sgPass r filterSize)
              (ret d)).
Proof.
  induction k as [|k IH].
  - cbn [Nat.iter]. symmetry. apply bind_ret_right.
  - rewrite Nat.iter_succ, IH, bind_assoc. reflexivity.
Qed.

(** X5.  Passes compose: [a + b] passes are [a] passes followed by [b]
    passes on their result, for both filters; the warnings of the
    Savitzky-Golay passes come in that order. *)
Theorem filter_passes_compose (data : list double) (filterSize a b : Z) :
  (0 <= a)%Z -> (0 <= b)%Z ->
  Filter.applyBoxcar data filterSize (a + b)
  = Filter.applyBoxcar (Filter.applyBoxcar data filterSize a) filterSize b
  /\ Filter.applySavitzkyGolay data filterSize (a + b)
     = (r <- Filter.applySavitzkyGolay data filterSize a ;;
        Filter.applySavitzkyGolay r filterSize b).
Proof.
  intros Ha Hb. split.
  - rewrite !applyBoxcar_iter, Z2Nat.inj_add by lia.
    rewrite Nat.add_comm. apply Nat.iter_add.
  - rewrite applySavitzkyGolay_iter, Z2Nat.inj_add by lia.
    rewrite Nat.add_comm, Nat.iter_add, sg_iter_from.
    rewrite <- applySavitzkyGolay_iter. apply bind_pointwise.
    intro d. symmetry. apply applySavitzkyGolay_iter.
Qed.

Lemma filter_passes_compose_witness :
  Filter.applyBoxcar [1; 5; 2] 3 (1 + 2)
  = Filter.applyBoxcar (Filter.applyBoxcar [1; 5; 2] 3 1) 3 2
  /\ Filter.applySavitzkyGolay [1; 5; 2] 3 (1 + 2)
     = (r <- Filter.applySavitzkyGolay [1; 5; 2] 3 1 ;;
        Filter.applySavitzkyGolay r 3 2).
Proof. apply (filter_passes_compose [1; 5; 2] 3 1 2); discriminate. Defined.

Lemma sgPass_errors (data : list double) (filterSize : Z) :
  errors (Filter.sgPass data filterSize)
  = if negb (filterSize =? 5)%Z && negb (filterSize =? 11)%Z
       && negb (filterSize =? 17)%Z
    then ["Warning: SG filter size should be 5, 11, or 17. Using 5."%string]
    else [].
Proof.
  unfold Filter.sgPass.
  destruct (negb (filterSize =? 5)%Z && negb (filterSize =? 11)%Z
            && negb (filterSize =? 17)%Z); reflexivity.
Qed.

Lemma sg_iter_errors (filterSize : Z) (k : nat) (data : list double) :
  errors (Nat.iter k (fun result => r <- result ;; Filter.sgPass r filterSize)
                   (ret data))
  = if negb (filterSize =? 5)%Z && negb (filterSize =? 11)%Z
       && negb (filterSize =? 17)%Z
    then repeat "Warning: SG filter size should be 5, 11, or 17. Using 5."%string k
    else [].
Proof.
  induction k as [|k IH].
  - cbn. now destruct (negb _ && negb _ && negb _).
  - rewrite Nat.iter_succ.
    destruct (Nat.iter k _ (ret data)) as [d w] eqn:E.
    cbn [errors snd] in IH. unfold bind.
    pose proof (sgPass_errors d filterSize) as He.
    destruct (Filter.sgPass d filterSize) as [d' w'].
    cbn [errors snd] in He |- *. subst w w'.
    destruct (negb _ && negb _ && negb _); [|reflexivity].
    symmetry. apply repeat_cons.
Qed.

(** X6.  A supported size (5, 11 or 17) never writes a warning; any other
    size writes the warning once per pass.  With a number of passes that is
    zero or negative neither filter runs a pass: the input is returned as
    it is and nothing is written. *)
Theorem filter_passes_and_warnings
        (data : list double) (filterSize numPasses : Z) :
  errors (Filter.applySavitzkyGolay data filterSize numPasses)
  = (if (filterSize =? 5)%Z || (filterSize =? 11)%Z || (filterSize =? 17)%Z
     then []
     else repeat "Warning: SG filter size should be 5, 11, or 17. Using 5."%string
                 (Z.to_nat numPasses))
  /\ ((numPasses <= 0)%Z ->
      Filter.applyBoxcar data filterSize numPasses = data
      /\ Filter.applySavitzkyGolay data filterSize numPasses = (data, [])).
Proof.
  split.
  - rewrite applySavitzkyGolay_iter, sg_iter_errors.
    destruct (filterSize =? 5)%Z, (filterSize =? 11)%Z, (filterSize =? 17)%Z;
      reflexivity.
  - intro H. rewrite applyBoxcar_iter, applySavitzkyGolay_iter.
    replace (Z.to_nat numPasses) with 0%nat by lia. split; reflexivity.
Qed.

Lemma filter_passes_and_warnings_witness :
  Filter.applyBoxcar [1; 5; 2] 7 (-1) = [1; 5; 2]
  /\ Filter.applySavitzkyGolay [1; 5; 2] 7 (-1) = ([1; 5; 2], []).
Proof.
  apply (filter_passes_and_warnings [1; 5; 2] 7 (-1)).
  discriminate.
Defined.

(** ** More on the spline *)

Lemma set_length (v : list double) :
  forall (i : nat) (a : double), length (Vec.set v i a) = length v.
Proof.
  induction v as [|h t IH]; intros [|i] a; cbn [Vec.set length];
    try reflexivity.
  now rewrite IH.
Qed.

Lemma at_set_same (v : list double) :
  forall (i : nat) (a : double),
    (i < length v)%nat -> Vec.at_ (Vec.set v i a) i = a.
Proof.
  unfold Vec.at_.
  induction v as [|h t IH]; intros [|i] a H; cbn [length] in H; try lia;
    cbn [Vec.set nth]; [reflexivity|].
  apply IH. lia.
Qed.

Lemma at_set_other (v : list double) :
  forall (i j : nat) (a : double),
    i <> j -> Vec.at_ (Vec.set v i a) j = Vec.at_ v j.
Proof.
  unfold Vec.at_.
  induction v as [|h t IH]; intros [|i] [|j] a H; cbn [Vec.set nth];
    try reflexivity; try congruence.
  apply IH. congruence.
Qed.

Lemma resize_length (v : list double) (n : nat) :
  length (Vec.resize v n) = n.
Proof.
  unfold Vec.resize. rewrite length_app, length_firstn, repeat_length. lia.
Qed.

(** The width loop, as a function of the number of turns. *)
Lemma widths_turn (xs : list double) (m : nat) :
  CubicSpline.widths xs (S (S m))
  = match CubicSpline.widths xs (S m) with
    | None => None
    | Some h =>
        if Vec.at_ xs (m + 1) - Vec.at_ xs m <=? 0 then None
        else Some (h ++ [Vec.at_ xs (m + 1) - Vec.at_ xs m])
    end.
Proof.
  unfold CubicSpline.widths.
  replace (S (S m) - 1)%nat with (S m) by lia.
  replace (S m - 1)%nat with m by lia.
  now rewrite seq_S, fold_left_app.
Qed.

Lemma widths_spec (xs : list double) (m : nat) :
  match CubicSpline.widths xs (S m) with
  | Some h =>
      h = map (fun i => Vec.at_ xs (i + 1) - Vec.at_ xs i) (seq 0 m)
      /\ forall i, (i < m)%nat -> Vec.at_ xs i < Vec.at_ xs (i + 1)
  | None => exists i, (i < m)%nat /\ ~ Vec.at_ xs i < Vec.at_ xs (i + 1)
  end.
Proof.
  induction m as [|m IH].
  - cbn. split; [reflexivity|]. intros i H. lia.
  - rewrite widths_turn.
    destruct (CubicSpline.widths xs (S m)) as [h|].
    + destruct IH as [Hh Hall].
      destruct (Vec.at_ xs (m + 1) - Vec.at_ xs m <=? 0) eqn:E.
      * apply leb_le in E. exists m. split; [lia|].
        intro Hlt. unfold double in *. lra.
      * assert (Vec.at_ xs m < Vec.at_ xs (m + 1)) as Hm.
        { apply Qnot_le_lt. intro Hle.
          assert ((Vec.at_ xs (m + 1) - Vec.at_ xs m <=? 0) = true) as E'
              by (apply leb_le; unfold double in *; lra).
          congruence. }
        split.
        -- rewrite seq_S, map_app, Hh. reflexivity.
        -- intros i Hi. destruct (Nat.eq_dec i m) as [->|Hne];
             [exact Hm|apply Hall; lia].
    + destruct IH as (i & Hi & Hbad). exists i. split; [lia|exact Hbad].
Qed.

Lemma widths_some_iff (xs : list double) :
  (1 <= length xs)%nat ->
  ((exists h, CubicSpline.widths xs (length xs) = Some h) <-> increasing xs).
Proof.
  intro Hn. destruct (length xs) as [|m] eqn:E; [lia|].
  pose proof (widths_spec xs m) as H. unfold increasing. rewrite E.
  destruct (CubicSpline.widths xs (S m)) as [h|].
  - destruct H as [_ Hall]. split; [|now exists h].
    intros _ i Hi. apply Hall. lia.
  - destruct H as (i & Hi & Hbad). split.
    + intros [h Hh]. discriminate.
    + intro Hinc. exfalso. apply Hbad. apply Hinc. lia.
Qed.

Lemma compute_success_conditions
        (solve : Mat.mat -> list double -> list double)
        (s : CubicSpline.t) (xData yData : list double) :
  fst (value (CubicSpline.compute solve s xData yData)) = true
  <-> length xData = length yData
      /\ (2 <= length xData)%nat
      /\ (length xData = 2%nat \/ increasing xData).
Proof.
  unfold CubicSpline.compute.
  destruct (Nat.eqb_spec (length xData) (length yData)) as [Hlen|Hlen];
    cbn [negb orb].
  2:{ split; [discriminate|]. intros (H & _). contradiction. }
  destruct (Nat.ltb_spec (length xData) 2) as [H2|H2].
  { split; [discriminate|]. intros (_ & H & _). lia. }
  cbv zeta. cbn [CubicSpline.x CubicSpline.y].
  destruct (Nat.eqb_spec (length xData) 2) as [Hn|Hn].
  { split; [|reflexivity]. intros _. repeat split; try assumption. now left. }
  pose proof (widths_some_iff xData ltac:(lia)) as Hw.
  destruct (CubicSpline.widths xData (length xData)) as [h|].
  - assert (increasing xData) as Hinc by (apply Hw; now exists h).
    rewrite (proj2 (Nat.eqb_neq (length xData - 2) 0)) by lia.
    destruct (CubicSpline.system h yData (length xData - 2)) as [A rhs].
    split; [|reflexivity]. intros _. repeat split; try assumption. now right.
  - split; [discriminate|]. intros (_ & _ & [H|H]); [lia|].
    apply Hw in H. destruct H as [h Hh]. discriminate.
Qed.

(** X7.  [compute] succeeds exactly when the two vectors have one size, at
    least two points are given and, for three points or more, the knots are
    strictly increasing; with exactly two points their order is not
    looked at. *)
Theorem compute_succeeds_iff
        (solve : Mat.mat -> list double -> list double)
        (s : CubicSpline.t) (xData yData : list double) :
  fst (value (CubicSpline.compute solve s xData yData)) = true
  <-> length xData = length yData
      /\ (2 <= length xData)%nat
      /\ (length xData = 2%nat \/ increasing xData).
Proof.
  exact (compute_success_conditions solve s xData yData).
Qed.

Lemma coefficients_unfold (s : CubicSpline.t) (h M : list double) (n : nat) :
  CubicSpline.coefficients s h M n
  = let s1 := fold_left (coefficientStep h M) (seq 0 (n - 1)) s in
    CubicSpline.mk (CubicSpline.x s1) (CubicSpline.y s1)
      (Vec.set (CubicSpline.b s1) (n - 1) (Vec.at_ (CubicSpline.b s1) (n - 2)))
      (Vec.set (CubicSpline.c s1) (n - 1) (Vec.at_ (CubicSpline.c s1) (n - 2)))
      (Vec.set (CubicSpline.d s1) (n - 1) (Vec.at_ (CubicSpline.d s1) (n - 2)))
      (CubicSpline.computed s1).
Proof. reflexivity. Qed.

(** What the coefficient loop has written after [m] turns. *)
Lemma coefficient_loop (h M : list double) (s : CubicSpline.t) (m : nat) :
  (m <= length (CubicSpline.b s))%nat ->
  (m <= length (CubicSpline.c s))%nat ->
  (m <= length (CubicSpline.d s))%nat ->
  let r := fold_left (coefficientStep h M) (seq 0 m) s in
  CubicSpline.x r = CubicSpline.x s
  /\ CubicSpline.y r = CubicSpline.y s
  /\ CubicSpline.computed r = CubicSpline.computed s
  /\ length (CubicSpline.b r) = length (CubicSpline.b s)
  /\ length (CubicSpline.c r) = length (CubicSpline.c s)
  /\ length (CubicSpline.d r) = length (CubicSpline.d s)
  /\ forall i, (i < m)%nat ->
       Vec.at_ (CubicSpline.b r) i
       = (Vec.at_ (CubicSpline.y s) (i + 1) - Vec.at_ (CubicSpline.y s) i)
         / Vec.at_ h i
         - Vec.at_ h i * (2 * Vec.at_ M i + Vec.at_ M (i + 1)) / 6
       /\ Vec.at_ (CubicSpline.c r) i = Vec.at_ M i / 2
       /\ Vec.at_ (CubicSpline.d r) i
          = (Vec.at_ M (i + 1) - Vec.at_ M i) / (6 * Vec.at_ h i).
Proof.
  induction m as [|m IH]; intros Hb Hc Hd.
  - cbn. repeat split; try reflexivity; intros; lia.
  - cbv zeta. rewrite seq_S, fold_left_app. cbn [Nat.add fold_left].
    destruct (IH ltac:(lia) ltac:(lia) ltac:(lia))
      as (Hx & Hy & Hcomp & Lb & Lc & Ld & Hall).
    set (r := fold_left (coefficientStep h M) (seq 0 m) s) in *.
    unfold coefficientStep.
    cbn [CubicSpline.x CubicSpline.y CubicSpline.b CubicSpline.c
         CubicSpline.d CubicSpline.computed].
    rewrite !set_length. repeat split; try assumption.
    all: destruct (Nat.eq_dec i m) as [->|Hne].
    all: try (rewrite at_set_same by lia; now rewrite ?Hy).
    all: rewrite at_set_other by congruence; apply Hall; lia.
Qed.

Lemma compute_success_members
        (solve : Mat.mat -> list double -> list double)
        (s s' : CubicSpline.t) (xData yData : list double)
        (log : list string) :
  CubicSpline.compute solve s xData yData = ((true, s'), log) ->
  log = []
  /\ CubicSpline.isComputed s' = true
  /\ CubicSpline.x s' = xData
  /\ CubicSpline.y s' = yData
  /\ length (CubicSpline.b s') = length xData
  /\ length (CubicSpline.c s') = length xData
  /\ length (CubicSpline.d s') = length xData.
Proof.
  unfold CubicSpline.compute.
  destruct (negb (length xData =? length yData)%nat
            || (length xData <? 2)%nat); [discriminate|].
  cbv zeta. cbn [CubicSpline.x CubicSpline.y CubicSpline.b CubicSpline.c
                 CubicSpline.d CubicSpline.computed].
  destruct (length xData =? 2)%nat.
  { intro H. inversion H; subst. cbn. rewrite !set_length, !resize_length.
    repeat split. }
  destruct (CubicSpline.widths xData (length xData)) as [h|]; [|discriminate].
  destruct (length xData - 2 =? 0)%nat.
  { intro H. inversion H; subst. cbn. rewrite !resize_length. repeat split. }
  destruct (CubicSpline.system h yData (length xData - 2)) as [A rhs].
  intro H. inversion H; subst. clear H.
  rewrite coefficients_unfold. cbv zeta.
  match goal with
  | |- context [fold_left (coefficientStep ?hh ?MM) (seq 0 ?m) ?s0] =>
      destruct (coefficient_loop hh MM s0 m) as (Hx & Hy & _ & Lb & Lc & Ld & _)
  end.
  1-3: cbn; rewrite resize_length; lia.
  cbn [CubicSpline.b CubicSpline.c CubicSpline.d CubicSpline.x CubicSpline.y]
    in *.
  unfold CubicSpline.isComputed, CubicSpline.setComputed.
  cbn [CubicSpline.b CubicSpline.c CubicSpline.d CubicSpline.x CubicSpline.y
       CubicSpline.computed].
  rewrite !set_length, Lb, Lc, Ld, !resize_length, Hx, Hy. repeat split.
Qed.

(** X8.  When [compute] succeeds it writes nothing to [cerr] and leaves a
    computed object that holds the given knots and values and three
    coefficient arrays of the size of the data. *)
Theorem compute_success_state
        (solve : Mat.mat -> list double -> list double)
        (s s' : CubicSpline.t) (xData yData : list double)
        (log : list string) :
  CubicSpline.compute solve s xData yData = ((true, s'), log) ->
  log = []
  /\ CubicSpline.isComputed s' = true
  /\ CubicSpline.x s' = xData
  /\ CubicSpline.y s' = yData
  /\ length (CubicSpline.b s') = length xData
  /\ length (CubicSpline.c s') = length xData
  /\ length (CubicSpline.d s') = length xData.
Proof.
  exact (compute_success_members solve s s' xData yData log).
Qed.

Lemma compute_success_state_witness :
  ([] : list string) = []
  /\ CubicSpline.isComputed (Exact.fit [0; 1; 3] [0; 2; 1]) = true
  /\ CubicSpline.x (Exact.fit [0; 1; 3] [0; 2; 1]) = [0; 1; 3]
  /\ CubicSpline.y (Exact.fit [0; 1; 3] [0; 2; 1]) = [0; 2; 1]
  /\ length (CubicSpline.b (Exact.fit [0; 1; 3] [0; 2; 1])) = length [0; 1; 3]
  /\ length (CubicSpline.c (Exact.fit [0; 1; 3] [0; 2; 1])) = length [0; 1; 3]
  /\ length (CubicSpline.d (Exact.fit [0; 1; 3] [0; 2; 1])) = length [0; 1; 3].
Proof.
  apply (compute_success_state Exact.solve CubicSpline.init
           (Exact.fit [0; 1; 3] [0; 2; 1]) [0; 1; 3] [0; 2; 1] []).
  vm_compute. reflexivity.
Defined.

Lemma leb_gt (a b : double) : (a <=? b) = false <-> b < a.
Proof.
  unfold Num.leb. split; intro H.
  - apply Qnot_le_lt. intro Hle. apply Qle_bool_iff in Hle. congruence.
  - destruct (Qle_bool a b) eqn:E; [|reflexivity].
    apply Qle_bool_iff in E. exfalso. apply (Qlt_not_le _ _ H E).
Qed.

Lemma geb_le (a b : double) : (a >=? b) = true <-> b <= a.
Proof. unfold Num.geb. apply leb_le. Qed.

Lemma geb_lt (a b : double) : (a >=? b) = false <-> a < b.
Proof. unfold Num.geb. apply leb_gt. Qed.

Lemma increasing_far (xs : list double) :
  increasing xs ->
  forall i j : nat,
    (i < j)%nat -> (j < length xs)%nat -> Vec.at_ xs i < Vec.at_ xs j.
Proof.
  intros Hinc i j Hij. induction Hij as [|j Hij IH]; intro Hj.
  - rewrite <- Nat.add_1_r. apply Hinc. lia.
  - apply Qlt_trans with (Vec.at_ xs j); [apply IH; lia|].
    rewrite <- (Nat.add_1_r j). apply Hinc. lia.
Qed.











(** X11.  A fit that fails on an object that was not computed leaves it not
    computed, with one line on [cerr]; every query on it then gives its
    not-ready answer: value and derivative 0, no crossings, integral 0 with
    an error line, no peaks. *)
Theorem failed_fit_stays_not_ready
        (solve : Mat.mat -> list double -> list double)
        (s s' : CubicSpline.t) (xData yData xs ys : list double)
        (log : list string) (v yVal xMin xMax a b baseline : double) :
  CubicSpline.isComputed s = false ->
  CubicSpline.compute solve s xData yData = ((false, s'), log) ->
  length log = 1%nat
  /\ CubicSpline.isComputed s' = false
  /\ CubicSpline.evaluate s' v = 0
  /\ CubicSpline.evaluateDerivative s' v = 0
  /\ CubicSpline.findCrossings s' yVal xMin xMax = []
  /\ Integration.gaussLegendre s' a b = (0, [Integration.notComputed])
  /\ value (PeakDetector.detectPeaks s' xs ys baseline) = [].
Proof.
  intros Hs Hfit.
  assert (length log = 1%nat /\ CubicSpline.computed s' = false) as [Hlog Hc].
  { unfold CubicSpline.isComputed in Hs. unfold CubicSpline.compute in Hfit.
    destruct (negb (length xData =? length yData)%nat
              || (length xData <? 2)%nat).
    { inversion Hfit; subst. now split. }
    cbv zeta in Hfit. destruct (length xData =? 2)%nat; [discriminate|].
    cbn [CubicSpline.x] in Hfit.
    destruct (CubicSpline.widths xData (length xData)).
    - destruct (length xData - 2 =? 0)%nat; [discriminate|].
      destruct (CubicSpline.system _ _ _); discriminate.
    - inversion Hfit; subst. now split. }
  unfold CubicSpline.isComputed, CubicSpline.evaluate,
    CubicSpline.evaluateDerivative, CubicSpline.findCrossings,
    Integration.gaussLegendre, PeakDetector.detectPeaks,
    CubicSpline.isComputed.
  rewrite Hc. repeat split; assumption.
Qed.

Lemma failed_fit_stays_not_ready_witness :
  length ["Error: x values must be strictly increasing"%string] = 1%nat
  /\ CubicSpline.isComputed (CubicSpline.mk [0; 1; 1] [0; 0; 0] [0; 0; 0] [0; 0; 0] [0; 0; 0] false) = false
  /\ CubicSpline.evaluate (CubicSpline.mk [0; 1; 1] [0; 0; 0] [0; 0; 0] [0; 0; 0] [0; 0; 0] false) 1 = 0
  /\ CubicSpline.evaluateDerivative (CubicSpline.mk [0; 1; 1] [0; 0; 0] [0; 0; 0] [0; 0; 0] [0; 0; 0] false) 1 = 0
  /\ CubicSpline.findCrossings (CubicSpline.mk [0; 1; 1] [0; 0; 0] [0; 0; 0] [0; 0; 0] [0; 0; 0] false) 0 0 1 = []
  /\ Integration.gaussLegendre (CubicSpline.mk [0; 1; 1] [0; 0; 0] [0; 0; 0] [0; 0; 0] [0; 0; 0] false) 0 1
     = (0, [Integration.notComputed])
  /\ value (PeakDetector.detectPeaks (CubicSpline.mk [0; 1; 1] [0; 0; 0] [0; 0; 0] [0; 0; 0] [0; 0; 0] false) [0; 1] [0; 1] 0) = [].
Proof.
  apply (failed_fit_stays_not_ready Exact.solve CubicSpline.init
           (CubicSpline.mk [0; 1; 1] [0; 0; 0] [0; 0; 0] [0; 0; 0] [0; 0; 0]
                           false)
           [0; 1; 1] [0; 0; 0] [0; 1] [0; 1]
           ["Error: x values must be strictly increasing"%string]
           1 0 0 1 0 1 0); reflexivity.
Defined.

(** ** Crossings *)

Lemma bisect_between (k : nat) (s : CubicSpline.t) (yVal : double) :
  forall xLeft xRight fLeft fRight : double,
    xLeft <= xRight ->
    xLeft <= CubicSpline.bisect k s yVal xLeft xRight fLeft fRight
    /\ CubicSpline.bisect k s yVal xLeft xRight fLeft fRight <= xRight.
Proof.
  assert (forall a b : Q, a <= b -> a <= (a + b) / 2 /\ (a + b) / 2 <= b)
    as Hmid
      by (intros a b H; unfold Qdiv; change (/ 2) with (1 # 2); split; lra).
  induction k as [|k IH]; intros xLeft xRight fLeft fRight H;
    cbn [CubicSpline.bisect]; [now apply Hmid|].
  cbv zeta. destruct (Hmid _ _ H) as [H1 H2].
  destruct ((Num.fabs _ <? 1e-8) || (Num.fabs _ <? 1e-10)); [now split|].
  destruct (fLeft * _ <? 0).
  - destruct (IH xLeft ((xLeft + xRight) / 2) fLeft
                (CubicSpline.evaluate s ((xLeft + xRight) / 2) - yVal) H1)
      as [Ha Hb].
    split; [exact Ha|]. now apply Qle_trans with ((xLeft + xRight) / 2).
  - destruct (IH ((xLeft + xRight) / 2) xRight
                (CubicSpline.evaluate s ((xLeft + xRight) / 2) - yVal)
                fRight H2)
      as [Ha Hb].
    split; [|exact Hb]. now apply Qle_trans with ((xLeft + xRight) / 2).
Qed.

Lemma range_from_one_snoc (m : nat) :
  Vec.range 1 (Z.of_nat (S m)) = Vec.range 1 (Z.of_nat m) ++ [Z.of_nat (S m)].
Proof.
  unfold Vec.range.
  replace (Z.to_nat (Z.of_nat (S m) - 1 + 1)) with (S m) by lia.
  replace (Z.to_nat (Z.of_nat m - 1 + 1)) with m by lia.
  rewrite seq_S, map_app. cbn [map Nat.add]. do 2 f_equal. lia.
Qed.

Lemma sorted_snoc (l : list Q) (c : Q) :
  StronglySorted Qle l -> Forall (fun a => a <= c) l ->
  StronglySorted Qle (l ++ [c]).
Proof.
  induction 1 as [|a l Hs IH Ha]; intro Hall; cbn [app].
  - constructor; constructor.
  - inversion Hall; subst. constructor; [now apply IH|].
    apply Forall_app. split; [exact Ha|]. now constructor.
Qed.

(** What the sampling loop has gathered after [m] samples. *)
Lemma crossing_loop (s : CubicSpline.t) (yVal xMin dx : Q) (m : nat) :
  0 <= dx ->
  forall (cs : list Q) (pv px : Q),
    fold_left (crossingStep s yVal xMin dx) (Vec.range 1 (Z.of_nat m))
              ([], CubicSpline.evaluate s xMin - yVal, xMin)
    = (cs, pv, px) ->
    px == xMin + inject_Z (Z.of_nat m) * dx
    /\ Forall (fun c => xMin <= c /\ c <= px) cs
    /\ StronglySorted Qle cs
    /\ (length cs <= m)%nat.
Proof.
  intro Hdx. induction m as [|m IH]; intros cs pv px H.
  - cbn in H. injection H as <- <- <-.
    split; [cbn; ring|]. split; [constructor|]. split; [constructor|].
    cbn. lia.
  - rewrite range_from_one_snoc, fold_left_app in H.
    destruct (fold_left (crossingStep s yVal xMin dx)
                        (Vec.range 1 (Z.of_nat m))
                        ([], CubicSpline.evaluate s xMin - yVal, xMin))
      as [[cs0 pv0] px0] eqn:E.
    destruct (IH _ _ _ eq_refl) as (Hpx & Hall & Hsort & Hlen).
    cbn [fold_left] in H. unfold crossingStep in H. cbv zeta in H.
    assert (px0 <= xMin + Num.of_int (Z.of_nat (S m)) * dx) as Hstep.
    { rewrite Hpx. unfold Num.of_int.
      rewrite Nat2Z.inj_succ. unfold Z.succ. rewrite inject_Z_plus.
      change (inject_Z 1) with 1. lra. }
    assert (xMin <= px0) as Hlow.
    { rewrite Hpx.
      assert (0 <= inject_Z (Z.of_nat m)) as Hm
          by (change 0 with (inject_Z 0); rewrite <- Zle_Qle; lia).
      pose proof (Qmult_le_0_compat _ _ Hm Hdx). lra. }
    assert (Forall (fun c => xMin <= c /\ c <= xMin + Num.of_int (Z.of_nat (S m)) * dx) cs0)
      as Hall'.
    { eapply Forall_impl; [|exact Hall]. intros c [Hc1 Hc2].
      split; [exact Hc1|]. now apply Qle_trans with px0. }
    pose proof (f_equal (fun t => fst (fst t)) H) as Hcs.
    pose proof (f_equal snd H) as Hx.
    cbv beta in Hcs. cbn [fst snd] in Hcs, Hx. clear H. subst cs px.
    match goal with
    | |- context [if ?t then _ else _] => destruct t
    end.
    + destruct (bisect_between 50 s yVal px0
                  (xMin + Num.of_int (Z.of_nat (S m)) * dx) pv0
                  (CubicSpline.evaluate s
                     (xMin + Num.of_int (Z.of_nat (S m)) * dx) - yVal) Hstep)
        as [Hb1 Hb2].
      split; [reflexivity|]. split; [|split].
      * apply Forall_app. split; [exact Hall'|].
        constructor; [|constructor]. split; [|exact Hb2].
        now apply Qle_trans with px0.
      * apply sorted_snoc; [exact Hsort|].
        eapply Forall_impl; [|exact Hall]. intros c [_ Hc2].
        now apply Qle_trans with px0.
      * rewrite length_app. cbn [length]. rewrite Nat.add_1_r.
        apply le_n_S. exact Hlen.
    + split; [reflexivity|]. split; [exact Hall'|]. split; [exact Hsort|].
      apply Nat.le_trans with m; [exact Hlen|apply Nat.le_succ_diag_r].
Qed.

Lemma findCrossings_unfold (s : CubicSpline.t) (yVal xMin xMax : double) :
  CubicSpline.findCrossings s yVal xMin xMax
  = if negb (CubicSpline.computed s) || Vec.empty (CubicSpline.x s) then []
    else
      fst (fst (fold_left
                  (crossingStep s yVal xMin
                     ((xMax - xMin) / Num.of_int CubicSpline.numSamples))
                  (Vec.range 1 CubicSpline.numSamples)
                  ([], CubicSpline.evaluate s xMin - yVal, xMin))).
Proof.
  unfold CubicSpline.findCrossings.
  destruct (negb (CubicSpline.computed s) || Vec.empty (CubicSpline.x s));
    [reflexivity|].
  cbv zeta.
  rewrite (fold_left_pointwise _
             (crossingStep s yVal xMin
                ((xMax - xMin) / Num.of_int CubicSpline.numSamples))).
  - now destruct (fold_left _ _ _) as [[cs pv] px].
  - intros [[cs pv] px] i. reflexivity.
Qed.

Lemma findCrossings_ascending
      (s : CubicSpline.t) (yVal xMin xMax : double) :
  xMin <= xMax ->
  Forall (fun c =>
            xMin <= c
            /\ c <= xMin + Num.of_int CubicSpline.numSamples
                           * ((xMax - xMin)
                              / Num.of_int CubicSpline.numSamples))
         (CubicSpline.findCrossings s yVal xMin xMax)
  /\ StronglySorted Qle (CubicSpline.findCrossings s yVal xMin xMax)
  /\ (length (CubicSpline.findCrossings s yVal xMin xMax) <= 1000)%nat.
Proof.
  intro H. rewrite findCrossings_unfold.
  destruct (negb (CubicSpline.computed s) || Vec.empty (CubicSpline.x s)).
  { split; [constructor|]. split; [constructor|]. cbn. lia. }
  destruct (fold_left _ _ _) as [[cs pv] px] eqn:E.
  change CubicSpline.numSamples with (Z.of_nat 1000) in *.
  apply crossing_loop in E.
  - destruct E as (Hpx & Hall & Hsort & Hlen). cbn [fst].
    split; [|split; assumption].
    eapply Forall_impl; [|exact Hall]. intros c [Hc1 Hc2].
    split; [exact Hc1|]. rewrite Hpx in Hc2. exact Hc2.
  - apply Qle_shift_div_l; [reflexivity|]. unfold double in *. lra.
Qed.



(** ** The piece that [evaluate] picks *)

(** The binary search keeps its bracket: it ends on an index whose
    interval holds the value, for any knots. *)
Lemma locate_brackets (xs : list double) (xVal : double) (fuel : nat) :
  forall left right : nat,
    (left < right)%nat ->
    (right - left <= fuel)%nat ->
    Vec.at_ xs left <= xVal ->
    xVal < Vec.at_ xs right ->
    (left <= CubicSpline.locate fuel xs xVal left right)%nat
    /\ (CubicSpline.locate fuel xs xVal left right + 1 <= right)%nat
    /\ Vec.at_ xs (CubicSpline.locate fuel xs xVal left right) <= xVal
    /\ xVal < Vec.at_ xs (CubicSpline.locate fuel xs xVal left right + 1).
Proof.
  induction fuel as [|fuel IH]; intros left right Hlr Hf Hl Hr; [lia|].
  cbn [CubicSpline.locate].
  destruct (Nat.ltb_spec 1 (right - left)) as [Hgap|Hgap].
  - pose proof (Nat.div_mod_eq (left + right) 2) as Hdiv.
    pose proof (Nat.mod_upper_bound (left + right) 2 ltac:(lia)) as Hmod.
    cbv zeta.
    destruct (xVal <? Vec.at_ xs ((left + right) / 2)) eqn:E.
    + apply ltb_lt in E.
      destruct (IH left ((left + right) / 2)%nat ltac:(lia) ltac:(lia) Hl E)
        as (H1 & H2 & H3 & H4).
      repeat split; try assumption. lia.
    + apply ltb_ge in E.
      destruct (IH ((left + right) / 2)%nat right ltac:(lia) ltac:(lia) E Hr)
        as (H1 & H2 & H3 & H4).
      repeat split; try assumption. lia.
  - replace right with (left + 1)%nat in * by lia.
    repeat split; try assumption; lia.
Qed.

(** X13.  On strictly increasing knots, at least two of them, [evaluate]
    and [evaluateDerivative] always pick a piece that exists, and for a
    value inside the data range the piece whose interval holds it. *)
Theorem interval_holds_value (s : CubicSpline.t) (xVal : double) :
  (2 <= length (CubicSpline.x s))%nat ->
  increasing (CubicSpline.x s) ->
  (CubicSpline.interval s xVal + 1 < length (CubicSpline.x s))%nat
  /\ (Vec.at_ (CubicSpline.x s) 0 <= xVal ->
      xVal <= Vec.at_ (CubicSpline.x s) (length (CubicSpline.x s) - 1) ->
      Vec.at_ (CubicSpline.x s) (CubicSpline.interval s xVal) <= xVal
      /\ xVal <= Vec.at_ (CubicSpline.x s) (CubicSpline.interval s xVal + 1)).
Proof.
  intros Hn Hinc. unfold CubicSpline.interval. cbv zeta.
  set (xs := CubicSpline.x s) in *. set (n := length xs) in *.
  destruct (xVal <=? Vec.at_ xs 0) eqn:E0.
  { apply leb_le in E0. split; [lia|]. intros H0 _. split; [exact H0|].
    apply Qle_trans with (Vec.at_ xs 0); [exact E0|].
    apply Qlt_le_weak. apply (Hinc 0%nat). fold n. lia. }
  apply leb_gt in E0.
  destruct (xVal >=? Vec.at_ xs (n - 1)) eqn:E1.
  { apply geb_le in E1. split; [lia|]. intros _ H1.
    replace (n - 2 + 1)%nat with (n - 1)%nat by lia. split; [|exact H1].
    apply Qle_trans with (Vec.at_ xs (n - 1)); [|exact E1].
    apply Qlt_le_weak. apply increasing_far; [exact Hinc|lia|fold n; lia]. }
  apply geb_lt in E1.
  destruct (locate_brackets xs xVal (n - 1) 0 (n - 1) ltac:(lia) ltac:(lia)
              (Qlt_le_weak _ _ E0) E1) as (H1 & H2 & H3 & H4).
  split; [lia|]. intros _ _. split; [exact H3|now apply Qlt_le_weak].
Qed.

Lemma interval_holds_value_witness :
  (CubicSpline.interval Data.bump 1000%Q + 1
   < length (CubicSpline.x Data.bump))%nat
  /\ Vec.at_ (CubicSpline.x Data.bump) (CubicSpline.interval Data.bump 1000)
     <= 1000
  /\ 1000 <= Vec.at_ (CubicSpline.x Data.bump)
                     (CubicSpline.interval Data.bump 1000 + 1).
Proof.
  assert (2 <= length (CubicSpline.x Data.bump))%nat as Hn
      by (vm_compute; lia).
  assert (increasing (CubicSpline.x Data.bump)) as Hinc.
  { replace (CubicSpline.x Data.bump) with Data.bumpX
      by (vm_compute; reflexivity).
    intros [|[|[|i]]] Hi; [reflexivity..|cbn in Hi; lia]. }
  destruct (interval_holds_value Data.bump 1000 Hn Hinc) as [H1 H2].
  split; [exact H1|]. apply H2; discriminate.
Defined.

(** ** More on peak detection *)

Lemma min_element_fold (rest : list Q) :
  forall first : Q,
    fold_left (fun smallest a => if a <? smallest then a else smallest)
              rest first <= first
    /\ Forall (fun a => fold_left (fun smallest a => if a <? smallest then a
                                                     else smallest)
                                  rest first <= a) rest.
Proof.
  induction rest as [|a rest IH]; intro first.
  - cbn. split; [apply Qle_refl|constructor].
  - cbn [fold_left]. destruct (a <? first) eqn:E.
    + apply ltb_lt in E. destruct (IH a) as [H1 H2].
      split; [apply Qle_trans with a; [exact H1|now apply Qlt_le_weak]|].
      constructor; assumption.
    + apply ltb_ge in E. destruct (IH first) as [H1 H2].
      split; [exact H1|]. constructor; [|exact H2].
      now apply Qle_trans with first.
Qed.

Lemma max_element_fold (rest : list Q) :
  forall first : Q,
    first <= fold_left (fun largest a => if largest <? a then a else largest)
                       rest first
    /\ Forall (fun a => a <= fold_left (fun largest a => if largest <? a then a
                                                         else largest)
                                       rest first) rest.
Proof.
  induction rest as [|a rest IH]; intro first.
  - cbn. split; [apply Qle_refl|constructor].
  - cbn [fold_left]. destruct (first <? a) eqn:E.
    + apply ltb_lt in E. destruct (IH a) as [H1 H2].
      split; [apply Qle_trans with a; [now apply Qlt_le_weak|exact H1]|].
      constructor; assumption.
    + apply ltb_ge in E. destruct (IH first) as [H1 H2].
      split; [exact H1|]. constructor; [|exact H2].
      now apply Qle_trans with first.
Qed.

Lemma min_le_max (v : list double) :
  PeakDetector.min_element v <= PeakDetector.max_element v.
Proof.
  destruct v as [|first rest]; [apply Qle_refl|].
  unfold PeakDetector.min_element, PeakDetector.max_element.
  apply Qle_trans with first;
    [apply min_element_fold|apply max_element_fold].
Qed.

(** Sorting: the insertion keeps what holds of every entry, and keeps an
    ascending list ascending. *)
Lemma insert_keeps (P : Q -> Prop) (a : Q) (l : list Q) :
  P a -> Forall P l -> Forall P (PeakDetector.insert a l).
Proof.
  intros Ha. induction 1 as [|h t Hh Ht IH]; cbn [PeakDetector.insert].
  - constructor; [exact Ha|constructor].
  - destruct (a <=? h).
    + constructor; [exact Ha|]. now constructor.
    + constructor; [exact Hh|exact IH].
Qed.

Lemma insert_sorted (a : Q) (l : list Q) :
  StronglySorted Qle l -> StronglySorted Qle (PeakDetector.insert a l).
Proof.
  induction 1 as [|h t Hs IH Hh]; cbn [PeakDetector.insert].
  - constructor; constructor.
  - destruct (a <=? h) eqn:E.
    + apply leb_le in E. constructor; [now constructor|].
      constructor; [exact E|].
      eapply Forall_impl; [|exact Hh]. intros c Hc.
      now apply Qle_trans with h.
    + apply leb_gt in E. constructor; [exact IH|].
      apply insert_keeps; [now apply Qlt_le_weak|exact Hh].
Qed.

Lemma sort_sorted (l : list Q) : StronglySorted Qle (PeakDetector.sort l).
Proof.
  induction l as [|a l IH]; [constructor|].
  cbn [PeakDetector.sort fold_right]. fold (PeakDetector.sort l).
  now apply insert_sorted.
Qed.

Lemma sort_keeps (P : Q -> Prop) (l : list Q) :
  Forall P l -> Forall P (PeakDetector.sort l).
Proof.
  induction 1 as [|a l Ha Hl IH]; [constructor|].
  cbn [PeakDetector.sort fold_right]. fold (PeakDetector.sort l).
  now apply insert_keeps.
Qed.

(** The crossing list after the two edge rules: nothing left of [xMin], and
    at most 1002 entries. *)
Lemma edgeCrossings_from_min (s : CubicSpline.t) (baseline xMin xMax : double) :
  xMin <= xMax ->
  Forall (fun c => xMin <= c)
         (PeakDetector.edgeCrossings s baseline xMin xMax)
  /\ (length (PeakDetector.edgeCrossings s baseline xMin xMax) <= 1002)%nat.
Proof.
  intro H. rewrite edgeCrossings_shape.
  destruct (findCrossings_ascending s baseline xMin xMax H)
    as (Hall & _ & Hlen).
  set (found := CubicSpline.findCrossings s baseline xMin xMax) in *.
  assert (Forall (fun c => xMin <= c) found) as Hlow
      by (eapply Forall_impl; [|exact Hall]; now intros c [Hc _]).
  split.
  - apply Forall_app. split; [|apply Forall_app; split; [exact Hlow|]].
    + destruct ((CubicSpline.evaluate s xMin >? baseline)
                && negb (Vec.empty found)); [|constructor].
      constructor; [apply Qle_refl|constructor].
    + destruct ((CubicSpline.evaluate s xMax >? baseline)
                && negb (Vec.empty found)); [|constructor].
      constructor; [exact H|constructor].
  - rewrite !length_app.
    destruct ((CubicSpline.evaluate s xMin >? baseline)
              && negb (Vec.empty found));
      destruct ((CubicSpline.evaluate s xMax >? baseline)
                && negb (Vec.empty found)); cbn [length];
      unfold double in *; lia.
Qed.

(** The list whose consecutive pairs [detectPeaks] walks: ascending because
    it has been sorted, with nothing left of the least x, and at most 1002
    entries. *)
Lemma crossingsOf_sorted
      (s : CubicSpline.t) (xData : list double) (baseline : double) :
  StronglySorted Qle (crossingsOf s xData baseline)
  /\ Forall (fun c => PeakDetector.min_element xData <= c)
            (crossingsOf s xData baseline)
  /\ (length (crossingsOf s xData baseline) <= 1002)%nat.
Proof.
  destruct (edgeCrossings_from_min s baseline _ _ (min_le_max xData))
    as (Ha & Hl).
  unfold crossingsOf. split; [apply sort_sorted|].
  split; [now apply sort_keeps|]. now rewrite sort_length.
Qed.

Lemma ascending_at (l : list Q) :
  StronglySorted Qle l ->
  forall i j, (i < j)%nat -> (j < length l)%nat ->
              Vec.at_ l i <= Vec.at_ l j.
Proof.
  unfold Vec.at_. induction 1 as [|a l Hs IH Ha]; intros i j Hij Hj;
    [cbn in Hj; lia|].
  destruct j as [|j]; [lia|]. cbn [length] in Hj.
  destruct i as [|i]; cbn [nth].
  - rewrite Forall_forall in Ha. apply Ha. apply nth_In.
    apply Nat.succ_lt_mono. exact Hj.
  - apply IH; apply Nat.succ_lt_mono; assumption.
Qed.




Lemma pairPeak_fields (s : CubicSpline.t) (xData yData : list double)
      (baseline xBegin xEnd : double) (p : PeakDetector.Peak) :
  PeakDetector.pairPeak s xData yData baseline xBegin xEnd = Some p ->
  PeakDetector.begin p = xBegin
  /\ PeakDetector.end_ p = xEnd
  /\ PeakDetector.location p = (xBegin + xEnd) / 2
  /\ PeakDetector.area p = 0
  /\ PeakDetector.hydrogens p = 0%Z
  /\ baseline < CubicSpline.evaluate s ((xBegin + xEnd) / 2)
  /\ 0.02 <= Num.fabs ((xBegin + xEnd) / 2).
Proof.
  unfold PeakDetector.pairPeak. cbv zeta.
  destruct (CubicSpline.evaluate s ((xBegin + xEnd) / 2) <=? baseline) eqn:Em;
    [discriminate|].
  destruct (PeakDetector.scanData _ _ _ _ _ _) as [[m x] f].
  destruct (negb f); [discriminate|].
  cbn [PeakDetector.location].
  destruct (Num.fabs ((xBegin + xEnd) / 2) <? 0.02) eqn:Ez; [discriminate|].
  intro H. injection H as <-. cbn.
  apply leb_gt in Em. apply ltb_ge in Ez. repeat split; assumption.
Qed.




(** The loop that pushes the peaks, as one list expression. *)
Lemma push_flat_map {P : Type} (f : nat -> option P) (ks : list nat) :
  forall acc : list P,
    fold_left (fun peaks i => match f i with
                              | Some peak => peaks ++ [peak]
                              | None => peaks
                              end) ks acc
    = acc ++ flat_map (fun i => match f i with
                                | Some peak => [peak]
                                | None => []
                                end) ks.
Proof.
  induction ks as [|k ks IH]; intro acc; cbn [fold_left flat_map].
  - now rewrite app_nil_r.
  - rewrite IH. destruct (f k); [now rewrite <- app_assoc|].
    reflexivity.
Qed.

Lemma flat_map_option_length {P : Type} (f : nat -> option P) (ks : list nat) :
  (length (flat_map (fun i => match f i with
                              | Some peak => [peak]
                              | None => []
                              end) ks) <= length ks)%nat.
Proof.
  induction ks as [|k ks IH]; [apply Nat.le_refl|].
  cbn [flat_map]. rewrite length_app. destruct (f k); cbn [length].
  - now apply le_n_S.
  - now apply Nat.le_trans with (length ks); [|apply Nat.le_succ_diag_r].
Qed.

Lemma seq_ascending (m : nat) :
  forall a : nat, StronglySorted lt (seq a m).
Proof.
  induction m as [|m IH]; intro a; [constructor|].
  cbn [seq]. constructor; [apply IH|].
  apply Forall_forall. intros j Hj. apply in_seq in Hj. lia.
Qed.

Lemma pairs_in_order
      (s : CubicSpline.t) (xData yData : list double) (baseline : double)
      (crossings : list double) (ks : list nat) :
  StronglySorted Qle crossings ->
  StronglySorted lt ks ->
  Forall (fun i => (i + 1 < length crossings)%nat) ks ->
  StronglySorted
    (fun p q => PeakDetector.end_ p <= PeakDetector.begin q)
    (flat_map (fun i => match PeakDetector.pairPeak s xData yData baseline
                                (Vec.at_ crossings i)
                                (Vec.at_ crossings (i + 1)) with
                        | Some peak => [peak]
                        | None => []
                        end) ks).
Proof.
  intros Hc Hk Hin. induction Hk as [|k ks Hs IH Hlt]; [constructor|].
  inversion Hin as [|? ? Hk1 Hin']; subst.
  cbn [flat_map].
  destruct (PeakDetector.pairPeak s xData yData baseline _ _) as [p|] eqn:Ep;
    [|exact (IH Hin')].
  cbn [app]. constructor; [exact (IH Hin')|].
  apply Forall_forall. intros q Hq. apply in_flat_map in Hq.
  destruct Hq as (j & Hj & Hq).
  destruct (PeakDetector.pairPeak s xData yData baseline
              (Vec.at_ crossings j) _) as [q'|] eqn:Eq; [|destruct Hq].
  destruct Hq as [<-|[]].
  apply pairPeak_fields in Ep. apply pairPeak_fields in Eq.
  destruct Ep as (_ & -> & _). destruct Eq as (-> & _).
  rewrite Forall_forall in Hlt, Hin'.
  specialize (Hlt j Hj). specialize (Hin' j Hj).
  destruct (Nat.eq_dec (k + 1) j) as [<-|Hne]; [apply Qle_refl|].
  apply ascending_at; [exact Hc| |]; unfold double in *; lia.
Qed.

Lemma pairLoop_in_order
      (s : CubicSpline.t) (xData yData : list double) (baseline : double)
      (crossings : list double) :
  StronglySorted Qle crossings ->
  StronglySorted
    (fun p q => PeakDetector.end_ p <= PeakDetector.begin q)
    (PeakDetector.pairLoop s xData yData baseline crossings)
  /\ (length (PeakDetector.pairLoop s xData yData baseline crossings)
      <= length crossings - 1)%nat.
Proof.
  intro Hc. unfold PeakDetector.pairLoop.
  rewrite (push_flat_map
             (fun i => PeakDetector.pairPeak s xData yData baseline
                         (Vec.at_ crossings i) (Vec.at_ crossings (i + 1)))).
  cbn [app]. split.
  - apply pairs_in_order; [exact Hc|apply seq_ascending|].
    apply Forall_forall. intros i Hi. apply in_seq in Hi.
    unfold double in *. lia.
  - eapply Nat.le_trans; [apply flat_map_option_length|].
    rewrite length_seq. apply Nat.le_refl.
Qed.

(** X16.  The peaks that [detectPeaks] returns come from left to right and
    do not overlap: each ends no later than every later one begins; and
    there are at most 1001 of them. *)
Theorem detected_peaks_in_order
        (s : CubicSpline.t) (xData yData : list double) (baseline : double) :
  StronglySorted
    (fun p q => PeakDetector.end_ p <= PeakDetector.begin q)
    (value (PeakDetector.detectPeaks s xData yData baseline))
  /\ (length (value (PeakDetector.detectPeaks s xData yData baseline))
      <= 1001)%nat.
Proof.
  destruct (crossingsOf_sorted s xData baseline) as (Hs & _ & Hl).
  destruct (pairLoop_in_order s xData yData baseline _ Hs) as [Ho Hn].
  unfold PeakDetector.detectPeaks.
  destruct (negb (CubicSpline.isComputed s) || Vec.empty xData
            || Vec.empty yData);
    [split; [constructor|cbn; lia]|].
  destruct (negb (length xData =? length yData)%nat);
    [split; [constructor|cbn; lia]|].
  cbv zeta.
  destruct (length (PeakDetector.edgeCrossings _ _ _ _) <? 2)%nat;
    [split; [constructor|cbn; lia]|].
  cbn [value ret fst]. fold (crossingsOf s xData baseline).
  split; [exact Ho|]. unfold double in *. lia.
Qed.

(** ** Integration over an interval of no width *)










(** ** The loop of [integratePeaks] *)

Lemma integratePeaks_unfold (fuel : nat) (peaks : list PeakDetector.Peak)
      (s : CubicSpline.t) (integrationType : Z) (tolerance : double) :
  PeakDetector.integratePeaks fuel peaks s integrationType tolerance
  = fold_left (integrateStep fuel s integrationType tolerance) peaks
              (ret (Some [])).
Proof. reflexivity. Qed.

Lemma integrateStep_value (fuel : nat) (s : CubicSpline.t)
      (integrationType : Z) (tolerance : double)
      (acc : Cerr (option (list PeakDetector.Peak)))
      (peak : PeakDetector.Peak) :
  integrateStep fuel s integrationType tolerance acc peak
  = (match value acc,
           value (areaBy fuel s integrationType tolerance peak) with
     | Some ps, Some v => Some (ps ++ [PeakDetector.setArea peak v])
     | _, _ => None
     end,
     errors acc ++ errors (areaBy fuel s integrationType tolerance peak)).
Proof.
  unfold integrateStep, bind, ret, value, errors.
  destruct acc as [done e]. destruct (areaBy _ _ _ _ _) as [a e'].
  cbn [fst snd]. now rewrite app_nil_r.
Qed.

Lemma setArea_again (p : PeakDetector.Peak) (v w : double) :
  PeakDetector.setArea (PeakDetector.setArea p v) w = PeakDetector.setArea p w.
Proof. reflexivity. Qed.

Lemma integrate_loop_frame (fuel : nat) (s : CubicSpline.t)
      (integrationType : Z) (tolerance : double)
      (peaks : list PeakDetector.Peak) :
  forall (acc : Cerr (option (list PeakDetector.Peak)))
         (out : list PeakDetector.Peak),
    value (fold_left (integrateStep fuel s integrationType tolerance)
                     peaks acc) = Some out ->
    exists before added,
      value acc = Some before /\ out = before ++ added
      /\ map (fun p => PeakDetector.setArea p 0) added
         = map (fun p => PeakDetector.setArea p 0) peaks.
Proof.
  induction peaks as [|p peaks IH]; intros acc out H.
  - exists out, []. cbn in H. rewrite app_nil_r. now repeat split.
  - cbn [fold_left] in H. apply IH in H.
    destruct H as (before & added & Hv & -> & Hm).
    rewrite integrateStep_value in Hv. unfold value in Hv. cbn [fst] in Hv.
    destruct (fst acc) as [ps|] eqn:Ea; [|discriminate].
    destruct (fst (areaBy fuel s integrationType tolerance p)) as [v|];
      [|discriminate].
    injection Hv as <-.
    exists ps, (PeakDetector.setArea p v :: added).
    split; [exact Ea|]. split; [now rewrite <- app_assoc|].
    cbn [map]. now rewrite setArea_again, Hm.
Qed.

(** X18.  When [integratePeaks] returns, it has kept the number and the
    order of the peaks, and in each of them every field other than
    [area]. *)
Theorem integratePeaks_frame
        (fuel : nat) (peaks : list PeakDetector.Peak) (s : CubicSpline.t)
        (integrationType : Z) (tolerance : double)
        (out : list PeakDetector.Peak) :
  value (PeakDetector.integratePeaks fuel peaks s integrationType tolerance)
  = Some out ->
  length out = length peaks
  /\ map (fun p => PeakDetector.setArea p 0) out
     = map (fun p => PeakDetector.setArea p 0) peaks.
Proof.
  intro H. rewrite integratePeaks_unfold in H.
  apply integrate_loop_frame in H.
  destruct H as (before & added & Hv & -> & Hm).
  unfold value, ret in Hv. cbn [fst] in Hv. injection Hv as <-. cbn [app].
  split; [|exact Hm].
  rewrite <- (length_map (fun p => PeakDetector.setArea p 0) added), Hm.
  apply length_map.
Qed.

Lemma integratePeaks_frame_witness :
  length [PeakDetector.setArea (Data.peakOfArea 0)
            (564036430399401387750913474560 # 564036430399401387750913474560)]
  = length [Data.peakOfArea 0]
  /\ map (fun p => PeakDetector.setArea p 0)
         [PeakDetector.setArea (Data.peakOfArea 0)
            (564036430399401387750913474560 # 564036430399401387750913474560)]
     = map (fun p => PeakDetector.setArea p 0) [Data.peakOfArea 0].
Proof.
  apply (integratePeaks_frame 1 [Data.peakOfArea 0] Data.ramp 2 1e-8).
  vm_compute. reflexivity.
Defined.

Lemma areaBy_without_integral (fuel : nat) (s : CubicSpline.t)
      (integrationType : Z) (tolerance : double) (peak : PeakDetector.Peak) :
  CubicSpline.isComputed s = false
  \/ (integrationType < 0 \/ 3 < integrationType)%Z ->
  areaBy fuel s integrationType tolerance peak
  = (Some 0,
     [if (0 <=? integrationType)%Z && (integrationType <=? 3)%Z
      then Integration.notComputed
      else String.append "Unknown integration type: "
                         (Num.to_string integrationType)]).
Proof.
  intro H. unfold areaBy.
  destruct (integrationType =? 0)%Z eqn:E0;
    [apply Z.eqb_eq in E0; subst|];
    [|destruct (integrationType =? 1)%Z eqn:E1;
      [apply Z.eqb_eq in E1; subst|];
      [|destruct (integrationType =? 2)%Z eqn:E2;
        [apply Z.eqb_eq in E2; subst|];
        [|destruct (integrationType =? 3)%Z eqn:E3;
          [apply Z.eqb_eq in E3; subst|]]]].
  1-4: destruct H as [H|H]; [|lia].
  - unfold Integration.newtonCotes. now rewrite H.
  - unfold Integration.romberg. now rewrite H.
  - unfold Integration.adaptive. now rewrite H.
  - unfold Integration.gaussLegendre. now rewrite H.
  - apply Z.eqb_neq in E0, E1, E2, E3.
    replace ((0 <=? integrationType)%Z && (integrationType <=? 3)%Z)
      with false; [reflexivity|].
    symmetry. apply andb_false_iff.
    destruct (Z.leb_spec 0 integrationType); [right|now left].
    apply Z.leb_gt. lia.
Qed.

Lemma integrate_loop_without_integral (fuel : nat) (s : CubicSpline.t)
      (integrationType : Z) (tolerance : double)
      (peaks : list PeakDetector.Peak) :
  CubicSpline.isComputed s = false
  \/ (integrationType < 0 \/ 3 < integrationType)%Z ->
  forall (before : list PeakDetector.Peak) (lines : list string),
    fold_left (integrateStep fuel s integrationType tolerance) peaks
              (Some before, lines)
    = (Some (before ++ map (fun p => PeakDetector.setArea p 0) peaks),
       lines
       ++ repeat (if (0 <=? integrationType)%Z && (integrationType <=? 3)%Z
                  then Integration.notComputed
                  else String.append "Unknown integration type: "
                                     (Num.to_string integrationType))
                 (length peaks)).
Proof.
  intro H. induction peaks as [|p peaks IH]; intros before lines.
  - cbn. now rewrite !app_nil_r.
  - cbn [fold_left]. rewrite integrateStep_value.
    rewrite (areaBy_without_integral _ _ _ _ _ H).
    unfold value, errors. cbn [fst snd]. rewrite IH.
    cbn [map length repeat]. now rewrite <- !app_assoc.
Qed.

(** X19.  On an interpolant that is not computed, or with an integration
    type outside 0..3, [integratePeaks] sets every area to 0 and writes one
    error line per peak: the line of the integration method in the first
    case, and the text "Unknown integration type: " followed by the number
    in the second. *)
Theorem integratePeaks_without_integral
        (fuel : nat) (peaks : list PeakDetector.Peak) (s : CubicSpline.t)
        (integrationType : Z) (tolerance : double) :
  CubicSpline.isComputed s = false
  \/ (integrationType < 0 \/ 3 < integrationType)%Z ->
  value (PeakDetector.integratePeaks fuel peaks s integrationType tolerance)
  = Some (map (fun p => PeakDetector.setArea p 0) peaks)
  /\ errors (PeakDetector.integratePeaks fuel peaks s integrationType
                                         tolerance)
     = repeat (if (0 <=? integrationType)%Z && (integrationType <=? 3)%Z
               then Integration.notComputed
               else String.append "Unknown integration type: "
                                  (Num.to_string integrationType))
              (length peaks).
Proof.
  intro H. rewrite integratePeaks_unfold. unfold ret.
  rewrite (integrate_loop_without_integral _ _ _ _ _ H). now split.
Qed.

Lemma integratePeaks_without_integral_witness :
  value (PeakDetector.integratePeaks 1 [Data.peakOfArea 3; Data.peakOfArea 4]
                                     Data.ramp 7 1e-8)
  = Some (map (fun p => PeakDetector.setArea p 0)
              [Data.peakOfArea 3; Data.peakOfArea 4])
  /\ errors (PeakDetector.integratePeaks 1
               [Data.peakOfArea 3; Data.peakOfArea 4] Data.ramp 7 1e-8)
     = ["Unknown integration type: 7"%string;
        "Unknown integration type: 7"%string].
Proof.
  apply (integratePeaks_without_integral
           1 [Data.peakOfArea 3; Data.peakOfArea 4] Data.ramp 7 1e-8).
  right. right. reflexivity.
Defined.

(** ** Relative hydrogen counts *)

Lemma round_at_least_one (a m : Q) :
  0 < m -> m <= a -> (1 <= Num.round (a / m)%Q)%Z.
Proof.
  intros Hm Ha.
  assert (1 <= a / m) as H1
      by (apply Qle_shift_div_l; [exact Hm|now rewrite Qmult_1_l]).
  revert H1. generalize (a / m). intros q H1. unfold Num.round.
  replace (Qle_bool 0 q) with true by (symmetry; apply Qle_bool_iff; lra).
  change (Qfloor 1 <= Qfloor (q + (1 # 2)))%Z. apply Qfloor_resp_le. lra.
Qed.

Lemma round_of_unit (m : Q) : 0 < m -> Num.round (m / m) = 1%Z.
Proof.
  intro Hm.
  assert (m / m == 1) as H1 by (field; intro E; rewrite E in Hm; discriminate).
  unfold Num.round.
  replace (Qle_bool 0 (m / m)) with true
    by (symmetry; apply Qle_bool_iff; rewrite H1; discriminate).
  rewrite H1. reflexivity.
Qed.

Lemma round_not_positive (a m : Q) :
  0 < m -> a <= 0 -> (Num.round (a / m)%Q <= 0)%Z.
Proof.
  intros Hm Ha.
  assert (a / m <= 0) as H1.
  { apply Qle_shift_div_r; [exact Hm|]. now rewrite Qmult_0_l. }
  revert H1. generalize (a / m). intros q H1.
  unfold Num.round. destruct (Qle_bool 0 q).
  - change (Qfloor (q + (1 # 2)) <= Qfloor (1 # 2))%Z.
    apply Qfloor_resp_le. lra.
  - apply Z.opp_nonpos_nonneg.
    change (Qfloor 0 <= Qfloor (- q + (1 # 2)))%Z.
    apply Qfloor_resp_le. lra.
Qed.

Lemma calculateHydrogens_map
      (first : PeakDetector.Peak) (rest : list PeakDetector.Peak) :
  PeakDetector.calculateHydrogens (first :: rest)
  = map (fun p => PeakDetector.setHydrogens p
                    (Num.round (PeakDetector.area p
                                / PeakDetector.minArea (first :: rest))))
        (first :: rest).
Proof. reflexivity. Qed.

(** X20.  When the first area is positive and every quotient of an area by
    the divisor lies within the range of [int], the divisor is the area of
    one of the peaks, and that peak gets the count 1; every peak of
    positive area gets a count of at least 1, and a peak of zero or
    negative area a count of at most 0. *)
Theorem hydrogens_relative_to_smallest
        (first : PeakDetector.Peak) (rest : list PeakDetector.Peak) :
  0 < PeakDetector.area first ->
  Forall (fun p => fitsInt (PeakDetector.area p
                            / PeakDetector.minArea (first :: rest)))
         (first :: rest) ->
  (exists p, In p (PeakDetector.calculateHydrogens (first :: rest))
             /\ PeakDetector.area p = PeakDetector.minArea (first :: rest)
             /\ PeakDetector.hydrogens p = 1%Z)
  /\ (forall p, In p (PeakDetector.calculateHydrogens (first :: rest)) ->
                0 < PeakDetector.area p -> (1 <= PeakDetector.hydrogens p)%Z)
  /\ (forall p, In p (PeakDetector.calculateHydrogens (first :: rest)) ->
                PeakDetector.area p <= 0 -> (PeakDetector.hydrogens p <= 0)%Z).
Proof.
  intros Hpos _.
  destruct (minArea_first_positive first rest Hpos) as (Hm & (q & Hq & Ha) & Hall).
  rewrite calculateHydrogens_map.
  set (m := PeakDetector.minArea (first :: rest)) in *.
  split; [|split].
  - exists (PeakDetector.setHydrogens q (Num.round (PeakDetector.area q / m))).
    split; [|split].
    + apply (in_map (fun p => PeakDetector.setHydrogens p
                                (Num.round (PeakDetector.area p / m)))).
      exact Hq.
    + exact Ha.
    + cbn [PeakDetector.hydrogens PeakDetector.setHydrogens]. rewrite Ha.
      now apply round_of_unit.
  - intros p Hp Hp0. apply in_map_iff in Hp. destruct Hp as (p0 & <- & Hin).
    cbn [PeakDetector.hydrogens PeakDetector.setHydrogens
         PeakDetector.area] in *.
    apply round_at_least_one; [exact Hm|]. now apply Hall.
  - intros p Hp Hp0. apply in_map_iff in Hp. destruct Hp as (p0 & <- & Hin).
    cbn [PeakDetector.hydrogens PeakDetector.setHydrogens
         PeakDetector.area] in *.
    now apply round_not_positive.
Qed.

Lemma hydrogens_relative_to_smallest_witness :
  (exists p, In p (PeakDetector.calculateHydrogens
                     (map Data.peakOfArea [4; 2; -1; 3]))
             /\ PeakDetector.area p
                = PeakDetector.minArea (map Data.peakOfArea [4; 2; -1; 3])
             /\ PeakDetector.hydrogens p = 1%Z)
  /\ map PeakDetector.hydrogens
         (PeakDetector.calculateHydrogens (map Data.peakOfArea [4; 2; -1; 3]))
     = [2; 1; -1; 2]%Z.
Proof.
  split; [|vm_compute; reflexivity].
  apply (hydrogens_relative_to_smallest (Data.peakOfArea 4)
           (map Data.peakOfArea [2; -1; 3])).
  - reflexivity.
  - repeat (apply Forall_cons; [split; vm_compute; discriminate|]).
    apply Forall_nil.
Defined.

Lemma minArea_by_areas (ps qs : list PeakDetector.Peak) :
  map PeakDetector.area ps = map PeakDetector.area qs ->
  PeakDetector.minArea ps = PeakDetector.minArea qs.
Proof.
  intro H.
  assert (forall l : list PeakDetector.Peak,
             PeakDetector.minArea l
             = match map PeakDetector.area l with
               | [] => 0
               | a :: _ =>
                   fold_left (fun m c => if (c >? 0) && (c <? m) then c else m)
                             (map PeakDetector.area l) a
               end) as E.
  { intros [|f l]; [reflexivity|].
    exact (fold_left_through_map
             (fun m c => if (c >? 0) && (c <? m) then c else m)
             PeakDetector.area (f :: l) (PeakDetector.area f)). }
  now rewrite !E, H.
Qed.

(** X21.  [calculateHydrogens] can be run again without changing anything:
    the counts depend on the areas alone, and the areas are kept. *)
Theorem calculateHydrogens_idempotent (peaks : list PeakDetector.Peak) :
  PeakDetector.calculateHydrogens (PeakDetector.calculateHydrogens peaks)
  = PeakDetector.calculateHydrogens peaks.
Proof.
  destruct peaks as [|first rest]; [reflexivity|].
  rewrite (calculateHydrogens_map first rest).
  set (m := PeakDetector.minArea (first :: rest)).
  cbn [map]. rewrite calculateHydrogens_map.
  rewrite (minArea_by_areas _ (first :: rest)).
  - fold m. cbn [map]. f_equal.
    rewrite map_map. apply map_ext. intro p. reflexivity.
  - cbn [map]. f_equal. rewrite map_map. apply map_ext. intro p. reflexivity.
Qed.

(** ** Reading the data: order and calibration *)

Lemma at_map (f : double -> double) (xs : list double) (i : nat) :
  (i < length xs)%nat -> Vec.at_ (map f xs) i = f (Vec.at_ xs i).
Proof.
  intro H. unfold Vec.at_.
  rewrite (nth_indep _ 0 (f 0)) by (now rewrite length_map).
  apply map_nth.
Qed.

Lemma at_map_index (f : nat -> double) (l : list nat) (i : nat) :
  (i < length l)%nat -> Vec.at_ (map f l) i = f (nth i l 0%nat).
Proof.
  intro H. unfold Vec.at_.
  rewrite (nth_indep _ 0 (f 0%nat)) by (now rewrite length_map).
  apply map_nth.
Qed.

Lemma sorted_nth {A : Type} (R : A -> A -> Prop) (d : A) (l : list A) :
  StronglySorted R l ->
  forall i j, (i < j)%nat -> (j < length l)%nat -> R (nth i l d) (nth j l d).
Proof.
  induction 1 as [|a l Hs IH Ha]; intros i j Hij Hj; [cbn in Hj; lia|].
  destruct j as [|j]; [lia|]. cbn [length] in Hj.
  destruct i as [|i]; cbn [nth].
  - rewrite Forall_forall in Ha. apply Ha. apply nth_In. lia.
  - apply IH; lia.
Qed.

Lemma isSorted_ascending (r : DataReader.t) :
  DataReader.isSorted r = true <-> ascending (DataReader.xData r).
Proof.
  unfold DataReader.isSorted, ascending. rewrite forallb_forall. split.
  - intros H i Hi. specialize (H (i + 1)%nat).
    replace (i + 1 - 1)%nat with i in H by lia.
    apply ltb_ge. apply negb_true_iff. apply H. apply in_seq. lia.
  - intros H i Hi. apply in_seq in Hi. apply negb_true_iff. apply ltb_ge.
    specialize (H (i - 1)%nat).
    replace (i - 1 + 1)%nat with i in H by lia. apply H. lia.
Qed.

Lemma ascending_far (xs : list double) :
  ascending xs ->
  forall i j : nat,
    (i <= j)%nat -> (j < length xs)%nat -> Vec.at_ xs i <= Vec.at_ xs j.
Proof.
  intros Hasc i j Hij. induction Hij as [|j Hij IH]; intro Hj.
  - apply Qle_refl.
  - apply Qle_trans with (Vec.at_ xs j); [apply IH; lia|].
    rewrite <- (Nat.add_1_r j). apply Hasc. lia.
Qed.

Lemma sortData_result_sorted
      (sort : (nat -> nat -> bool) -> list nat -> list nat)
      (r : DataReader.t) :
  length (DataReader.xData r) = length (DataReader.yData r) ->
  StronglySorted
    (fun i j => (Vec.at_ (DataReader.xData r) j
                 <? Vec.at_ (DataReader.xData r) i) = false)
    (DataReader.sortedIndices sort r) ->
  DataReader.isSorted (DataReader.sortData sort r) = true.
Proof.
  intros Hlen Hs. unfold DataReader.sortData.
  rewrite Hlen, Nat.eqb_refl. cbn [negb orb].
  destruct (DataReader.xData r) as [|x0 xs] eqn:Ex;
    [cbn [Vec.empty]; unfold DataReader.isSorted; now rewrite Ex|].
  cbn [Vec.empty]. rewrite <- Ex in *.
  destruct (DataReader.isSorted r) eqn:E; [exact E|].
  cbv zeta. apply isSorted_ascending. cbn [DataReader.xData].
  intros i Hi. rewrite length_map in Hi.
  rewrite !at_map_index by lia. apply ltb_ge.
  apply (sorted_nth _ 0%nat _ Hs i (i + 1)); lia.
Qed.

(** X22.  Given equally long vectors, and an index sort that returns its
    indices in an order the comparison agrees with, [sortData] leaves the
    x values in ascending order, and a second call changes nothing. *)
Theorem sortData_sorts
        (sort : (nat -> nat -> bool) -> list nat -> list nat)
        (r : DataReader.t) :
  length (DataReader.xData r) = length (DataReader.yData r) ->
  StronglySorted
    (fun i j => (Vec.at_ (DataReader.xData r) j
                 <? Vec.at_ (DataReader.xData r) i) = false)
    (DataReader.sortedIndices sort r) ->
  DataReader.isSorted (DataReader.sortData sort r) = true
  /\ ascending (DataReader.xData (DataReader.sortData sort r))
  /\ DataReader.sortData sort (DataReader.sortData sort r)
     = DataReader.sortData sort r.
Proof.
  intros Hlen Hs.
  pose proof (sortData_result_sorted sort r Hlen Hs) as H.
  split; [exact H|]. split; [now apply isSorted_ascending|].
  set (r' := DataReader.sortData sort r) in *.
  unfold DataReader.sortData at 1. rewrite H.
  now destruct (negb _ || _).
Qed.

Lemma sortData_sorts_witness :
  DataReader.isSorted
    (DataReader.sortData (fun _ _ => [1; 2; 0]%nat)
                         (DataReader.mk [3; 1; 2] [30; 10; 20])) = true
  /\ ascending
       (DataReader.xData
          (DataReader.sortData (fun _ _ => [1; 2; 0]%nat)
                               (DataReader.mk [3; 1; 2] [30; 10; 20])))
  /\ DataReader.sortData (fun _ _ => [1; 2; 0]%nat)
       (DataReader.sortData (fun _ _ => [1; 2; 0]%nat)
                            (DataReader.mk [3; 1; 2] [30; 10; 20]))
     = DataReader.sortData (fun _ _ => [1; 2; 0]%nat)
                           (DataReader.mk [3; 1; 2] [30; 10; 20]).
Proof.
  apply (sortData_sorts (fun _ _ => [1; 2; 0]%nat)
                        (DataReader.mk [3; 1; 2] [30; 10; 20])).
  - reflexivity.
  - repeat constructor.
Defined.

Lemma combine_map_both {A B C : Type} (f : A -> B) (g : A -> C) (l : list A) :
  combine (map f l) (map g l) = map (fun a => (f a, g a)) l.
Proof. induction l as [|a l IH]; [reflexivity|]. cbn. now rewrite IH. Qed.

(** X23.  Given an index sort that returns a rearrangement of its indices,
    [sortData] keeps every (x, y) pair: the pairs after the call are a
    rearrangement of the pairs before it, and both vectors keep their
    size. *)
Theorem sortData_keeps_pairs
        (sort : (nat -> nat -> bool) -> list nat -> list nat)
        (r : DataReader.t) :
  Permutation (DataReader.sortedIndices sort r)
              (seq 0 (length (DataReader.xData r))) ->
  Permutation (combine (DataReader.xData (DataReader.sortData sort r))
                       (DataReader.yData (DataReader.sortData sort r)))
              (combine (DataReader.xData r) (DataReader.yData r))
  /\ length (DataReader.xData (DataReader.sortData sort r))
     = length (DataReader.xData r)
  /\ length (DataReader.yData (DataReader.sortData sort r))
     = length (DataReader.yData r).
Proof.
  intro Hp. unfold DataReader.sortData.
  destruct (Nat.eqb_spec (length (DataReader.xData r))
                         (length (DataReader.yData r))) as [Hlen|Hlen];
    cbn [negb orb]; [|now repeat split].
  destruct (Vec.empty (DataReader.xData r)); [now repeat split|].
  destruct (DataReader.isSorted r); [now repeat split|].
  cbv zeta. cbn [DataReader.xData DataReader.yData].
  rewrite !length_map, combine_map_both.
  rewrite (Permutation_length Hp), length_seq.
  split; [|split; [reflexivity|exact Hlen]].
  rewrite <- (indexed_pairs _ _ Hlen).
  now apply Permutation_map.
Qed.

Lemma sortData_keeps_pairs_witness :
  Permutation
    (combine (DataReader.xData
                (DataReader.sortData (fun _ _ => [1; 2; 0]%nat)
                                     (DataReader.mk [3; 1; 2] [30; 10; 20])))
             (DataReader.yData
                (DataReader.sortData (fun _ _ => [1; 2; 0]%nat)
                                     (DataReader.mk [3; 1; 2] [30; 10; 20]))))
    (combine [3; 1; 2] [30; 10; 20])
  /\ DataReader.sortData (fun _ _ => [1; 2; 0]%nat)
                         (DataReader.mk [3; 1; 2] [30; 10; 20])
     = DataReader.mk [1; 2; 3] [10; 20; 30].
Proof.
  split; [|reflexivity].
  apply (sortData_keeps_pairs (fun _ _ => [1; 2; 0]%nat)
                              (DataReader.mk [3; 1; 2] [30; 10; 20])).
  apply Permutation_sym. apply (Permutation_cons_app [1; 2]%nat [] 0%nat).
  apply Permutation_refl.
Defined.

Lemma tmsStep_candidate (r : DataReader.t) (b tms maxY : double) (i : nat) :
  DataReader.tmsStep r b (tms, maxY) i
  = if localMaxAbove r b i
       && ((Vec.at_ (DataReader.xData r) i >? tms)
           || (Vec.at_ (DataReader.yData r) i >? maxY))
    then if Vec.at_ (DataReader.xData r) i >=? tms
         then (Vec.at_ (DataReader.xData r) i, Vec.at_ (DataReader.yData r) i)
         else (tms, maxY)
    else (tms, maxY).
Proof.
  unfold DataReader.tmsStep, localMaxAbove. cbv zeta.
  destruct (Vec.at_ (DataReader.yData r) i >? b); [|reflexivity].
  destruct ((0 <? i)%nat
            && (Vec.at_ (DataReader.yData r) i
                <? Vec.at_ (DataReader.yData r) (i - 1)));
    destruct ((i <? length (DataReader.xData r) - 1)%nat
              && (Vec.at_ (DataReader.yData r) i
                  <? Vec.at_ (DataReader.yData r) (i + 1)));
    reflexivity.
Qed.

(** The search loop only ever moves to the x of a sample, and never to
    the left. *)
Lemma tms_loop_sample (r : DataReader.t) (b : double) (ks : list nat) :
  Forall (fun k => (k < length (DataReader.xData r))%nat) ks ->
  forall (state : double * double),
    (exists i, (i < length (DataReader.xData r))%nat
               /\ fst state = Vec.at_ (DataReader.xData r) i) ->
    Vec.at_ (DataReader.xData r) 0 <= fst state ->
    (exists i, (i < length (DataReader.xData r))%nat
               /\ fst (fold_left (DataReader.tmsStep r b) ks state)
                  = Vec.at_ (DataReader.xData r) i)
    /\ Vec.at_ (DataReader.xData r) 0
       <= fst (fold_left (DataReader.tmsStep r b) ks state).
Proof.
  induction 1 as [|k ks Hk _ IH]; intros [tms maxY] Hex Hle;
    [now split|].
  cbn [fold_left]. rewrite tmsStep_candidate.
  destruct (localMaxAbove r b k && _); [|now apply IH].
  destruct (Vec.at_ (DataReader.xData r) k >=? tms) eqn:E; [|now apply IH].
  apply geb_le in E. apply IH; cbn [fst] in *.
  - now exists k.
  - now apply Qle_trans with tms.
Qed.

Lemma findAndShiftTMS_unfold (r : DataReader.t) (b : double) :
  DataReader.xData r <> [] ->
  DataReader.findAndShiftTMS r b
  = ret (fst (fold_left (DataReader.tmsStep r b)
                        (seq 0 (length (DataReader.xData r)))
                        (Vec.at_ (DataReader.xData r) 0,
                         Vec.at_ (DataReader.yData r) 0)),
         DataReader.mk
           (map (fun x =>
                   x - fst (fold_left (DataReader.tmsStep r b)
                                      (seq 0 (length (DataReader.xData r)))
                                      (Vec.at_ (DataReader.xData r) 0,
                                       Vec.at_ (DataReader.yData r) 0)))
                (DataReader.xData r))
           (DataReader.yData r)).
Proof.
  intro H. unfold DataReader.findAndShiftTMS.
  destruct (DataReader.xData r) eqn:E; [contradiction|]. cbn [Vec.empty].
  now destruct (fold_left _ _ _).
Qed.

(** X24.  On data that is not empty, with as many y as x values,
    [findAndShiftTMS] writes no error; the shift it returns is the x of one
    of the samples, never left of the first; after the call that sample
    sits at 0, every x is the old one less the shift, and the y values are
    as they were. *)
Theorem tms_shift_lands_on_sample (r : DataReader.t) (b : double) :
  DataReader.xData r <> [] ->
  length (DataReader.xData r) = length (DataReader.yData r) ->
  errors (DataReader.findAndShiftTMS r b) = []
  /\ DataReader.yData (snd (value (DataReader.findAndShiftTMS r b)))
     = DataReader.yData r
  /\ DataReader.xData (snd (value (DataReader.findAndShiftTMS r b)))
     = map (fun x => x - fst (value (DataReader.findAndShiftTMS r b)))
           (DataReader.xData r)
  /\ Vec.at_ (DataReader.xData r) 0
     <= fst (value (DataReader.findAndShiftTMS r b))
  /\ exists i,
       (i < length (DataReader.xData r))%nat
       /\ fst (value (DataReader.findAndShiftTMS r b))
          = Vec.at_ (DataReader.xData r) i
       /\ Vec.at_ (DataReader.xData
                     (snd (value (DataReader.findAndShiftTMS r b)))) i == 0.
Proof.
  intros Hne _. rewrite (findAndShiftTMS_unfold r b Hne).
  cbn [errors value ret fst snd DataReader.xData DataReader.yData].
  assert (0 < length (DataReader.xData r))%nat as Hn
      by (destruct (DataReader.xData r); [contradiction|cbn; lia]).
  destruct (tms_loop_sample r b (seq 0 (length (DataReader.xData r)))
              ltac:(apply Forall_forall; intros k Hk; apply in_seq in Hk; lia)
              (Vec.at_ (DataReader.xData r) 0, Vec.at_ (DataReader.yData r) 0)
              ltac:(now exists 0%nat) ltac:(apply Qle_refl))
    as [(i & Hi & Heq) Hle].
  split; [reflexivity|]. split; [reflexivity|].
  split; [reflexivity|]. split; [exact Hle|].
  exists i. split; [exact Hi|]. split; [exact Heq|].
  rewrite at_map by exact Hi. rewrite Heq. unfold double in *. ring.
Qed.

Lemma tms_shift_lands_on_sample_witness :
  errors (DataReader.findAndShiftTMS
            (DataReader.mk [1; 2; 3; 4] [0; 5; 0; 1]) 2) = []
  /\ fst (value (DataReader.findAndShiftTMS
                   (DataReader.mk [1; 2; 3; 4] [0; 5; 0; 1]) 2)) = 2
  /\ 1 <= fst (value (DataReader.findAndShiftTMS
                        (DataReader.mk [1; 2; 3; 4] [0; 5; 0; 1]) 2)).
Proof.
  destruct (tms_shift_lands_on_sample
              (DataReader.mk [1; 2; 3; 4] [0; 5; 0; 1]) 2
              ltac:(discriminate) ltac:(reflexivity))
    as (H1 & _ & _ & H4 & _).
  split; [exact H1|]. split; [reflexivity|exact H4].
Defined.

(** On ascending data the loop ends on the rightmost sample that passes
    the peak test, among those seen so far. *)
Lemma tms_loop_rightmost (r : DataReader.t) (b : double) :
  ascending (DataReader.xData r) ->
  forall k : nat,
    (k <= length (DataReader.xData r))%nat ->
    (exists i, (i = 0%nat \/ ((i < k)%nat /\ localMaxAbove r b i = true))
               /\ fst (fold_left (DataReader.tmsStep r b) (seq 0 k)
                                 (Vec.at_ (DataReader.xData r) 0,
                                  Vec.at_ (DataReader.yData r) 0))
                  = Vec.at_ (DataReader.xData r) i)
    /\ forall j, (j < k)%nat -> localMaxAbove r b j = true ->
                 Vec.at_ (DataReader.xData r) j
                 <= fst (fold_left (DataReader.tmsStep r b) (seq 0 k)
                                   (Vec.at_ (DataReader.xData r) 0,
                                    Vec.at_ (DataReader.yData r) 0)).
Proof.
  intro Hasc. induction k as [|k IH]; intro Hk.
  - split; [exists 0%nat; split; [now left|reflexivity]|]. intros j Hj. lia.
  - rewrite seq_S, fold_left_app. cbn [Nat.add fold_left].
    destruct (IH ltac:(lia)) as [(i & Hi & Heq) Hall]. clear IH.
    destruct (fold_left _ (seq 0 k) _) as [tms maxY]. cbn [fst] in *.
    assert (tms <= Vec.at_ (DataReader.xData r) k) as Hle.
    { rewrite Heq. apply ascending_far; [exact Hasc| |lia].
      destruct Hi as [->|[Hi _]]; lia. }
    rewrite tmsStep_candidate.
    destruct (localMaxAbove r b k) eqn:Ec; cbn [andb].
    + destruct ((Vec.at_ (DataReader.xData r) k >? tms)
                || (Vec.at_ (DataReader.yData r) k >? maxY)) eqn:Et.
      * rewrite (proj2 (geb_le _ _) Hle). cbn [fst]. split.
        -- exists k. split; [right; split; [lia|exact Ec]|reflexivity].
        -- intros j Hj Hc. destruct (Nat.eq_dec j k) as [->|Hne];
             [apply Qle_refl|].
           apply Qle_trans with tms; [apply Hall; [lia|exact Hc]|exact Hle].
      * cbn [fst]. apply orb_false_iff in Et. destruct Et as [Et _].
        apply ltb_ge in Et. split.
        -- exists i. split; [|exact Heq].
           destruct Hi as [->|[Hi Hc]]; [now left|right; split; [lia|exact Hc]].
        -- intros j Hj Hc. destruct (Nat.eq_dec j k) as [->|Hne];
             [exact Et|apply Hall; [lia|exact Hc]].
    + cbn [fst]. split.
      * exists i. split; [|exact Heq].
        destruct Hi as [->|[Hi Hc]]; [now left|right; split; [lia|exact Hc]].
      * intros j Hj Hc. destruct (Nat.eq_dec j k) as [->|Hne];
          [congruence|apply Hall; [lia|exact Hc]].
Qed.

(** X25.  On data in ascending order the shift is the x of the rightmost
    sample that is above the threshold and not below either neighbour; if
    there is no such sample it is the first x. *)
Theorem tms_is_rightmost_peak (r : DataReader.t) (b : double) :
  DataReader.xData r <> [] ->
  length (DataReader.xData r) = length (DataReader.yData r) ->
  DataReader.isSorted r = true ->
  (exists i, (i = 0%nat
              \/ ((i < length (DataReader.xData r))%nat
                  /\ localMaxAbove r b i = true))
             /\ fst (value (DataReader.findAndShiftTMS r b))
                = Vec.at_ (DataReader.xData r) i)
  /\ forall j, (j < length (DataReader.xData r))%nat ->
               localMaxAbove r b j = true ->
               Vec.at_ (DataReader.xData r) j
               <= fst (value (DataReader.findAndShiftTMS r b)).
Proof.
  intros Hne _ Hs. apply isSorted_ascending in Hs.
  rewrite (findAndShiftTMS_unfold r b Hne). cbn [value ret fst].
  apply (tms_loop_rightmost r b Hs). apply Nat.le_refl.
Qed.

Lemma tms_is_rightmost_peak_witness :
  fst (value (DataReader.findAndShiftTMS
                (DataReader.mk [1; 2; 3; 4; 5] [0; 5; 0; 7; 1]) 2)) = 4
  /\ localMaxAbove (DataReader.mk [1; 2; 3; 4; 5] [0; 5; 0; 7; 1]) 2 1 = true
  /\ 2 <= fst (value (DataReader.findAndShiftTMS
                        (DataReader.mk [1; 2; 3; 4; 5] [0; 5; 0; 7; 1]) 2)).
Proof.
  destruct (tms_is_rightmost_peak
              (DataReader.mk [1; 2; 3; 4; 5] [0; 5; 0; 7; 1]) 2
              ltac:(discriminate) ltac:(reflexivity) ltac:(reflexivity))
    as [_ H].
  split; [reflexivity|]. split; [reflexivity|].
  apply (H 1%nat); [cbn; lia|reflexivity].
Defined.

Lemma shifted_le (a c shift : Q) : a <= c -> a - shift <= c - shift.
Proof. intro H. lra. Qed.

Lemma shifted_lt (a c shift : Q) : a - shift < c - shift -> a < c.
Proof. intro H. lra. Qed.

Lemma shift_pair (xs : list double) (shift : double) (i : nat) :
  (i + 1 < length xs)%nat ->
  Vec.at_ (map (fun x => x - shift) xs) i = Vec.at_ xs i - shift
  /\ Vec.at_ (map (fun x => x - shift) xs) (i + 1)
     = Vec.at_ xs (i + 1) - shift.
Proof.
  intro Hi. split; apply (at_map (fun x => x - shift)); [|exact Hi].
  apply Nat.lt_trans with (i + 1)%nat; [|exact Hi].
  apply Nat.lt_add_pos_r. constructor.
Qed.

(** Subtracting one number from every x keeps an ascending list
    ascending. *)
Lemma shift_keeps_ascending (xs : list double) (shift : double) :
  ascending xs -> ascending (map (fun x => x - shift) xs).
Proof.
  unfold ascending. rewrite length_map. intros H i Hi.
  destruct (shift_pair xs shift i Hi) as [E1 E2]. rewrite E1, E2.
  apply shifted_le. now apply H.
Qed.

(** If the x values are strictly increasing after the subtraction, they
    were so before it. *)
Lemma shift_reflects_increasing (xs : list double) (shift : double) :
  increasing (map (fun x => x - shift) xs) -> increasing xs.
Proof.
  unfold increasing. rewrite length_map. intros H i Hi.
  destruct (shift_pair xs shift i Hi) as [E1 E2].
  apply (shifted_lt _ _ shift). rewrite <- E1, <- E2. now apply H.
Qed.

(** X26.  The calibration keeps sorted data sorted; and if a spline fit on
    the shifted x values succeeds, the fit on the given x values would have
    succeeded too.  Both hold by order alone: the subtraction of the shift
    never reverses two x values, though it may bring two of them
    together. *)
Theorem tms_shift_keeps_order
        (r : DataReader.t) (b : double)
        (solve : Mat.mat -> list double -> list double)
        (s : CubicSpline.t) (ys : list double) :
  (DataReader.isSorted r = true ->
   DataReader.isSorted (snd (value (DataReader.findAndShiftTMS r b))) = true)
  /\ (fst (value (CubicSpline.compute solve s
                    (DataReader.xData
                       (snd (value (DataReader.findAndShiftTMS r b)))) ys))
      = true ->
      fst (value (CubicSpline.compute solve s (DataReader.xData r) ys))
      = true).
Proof.
  destruct (DataReader.xData r) as [|x0 xs] eqn:Ex.
  { unfold DataReader.findAndShiftTMS. rewrite Ex. cbn.
    rewrite Ex. now split. }
  assert (DataReader.xData r <> []) as Hne by (rewrite Ex; discriminate).
  rewrite (findAndShiftTMS_unfold r b Hne). cbn [value ret fst snd].
  set (shift := fst (fold_left _ _ _)). rewrite <- Ex. split.
  - rewrite !isSorted_ascending. apply shift_keeps_ascending.
  - rewrite !compute_success_conditions.
    cbn [DataReader.xData]. rewrite length_map.
    intros (H1 & H2 & [H3|H3]); repeat split; try assumption;
      [now left|right; now apply (shift_reflects_increasing _ shift)].
Qed.
